(** * Trajectory geometry of the Dobot Magician arc and circle controllers

    A shallow embedding of the three controller scripts

      - [execute_arc_trajectory.py]   (class [RobotArcController])
      - [circle_from_current_pos.py]  (class [RobotArcController], second variant)
      - [execute_3d_circle.py]        (class [Robot3DCircleController])

    Python numbers that take part in the geometry are modelled as real
    numbers [R]: rounding of binary floating point is not modelled, so every
    statement below is about the exact-arithmetic reading of the code.  The
    sample count [num_points] is a Python [int] and is modelled as [Z].
    A Python exception is an explicit [Raise] result.  Console output and
    [time.sleep] have no counterpart here; the calls of [magician.ptp] made
    by the driving loops are returned as a list, in the order issued.

    One guard of the code compares a computed number with zero
    ([normalize_vector]); where rounding decides that branch, the basis
    construction is evaluated on the binary64 embedding of the module
    [Execute3DCircleBinary64]. *)

From Stdlib Require Import Reals Lra Lia ZArith List String Bool Psatz.
From Stdlib Require PrimFloat.
Import ListNotations.

Local Open Scope R_scope.

(** ** The fragment of the Python runtime the scripts use *)

Module Py.

Inductive exn : Type :=
| ZeroDivisionError.

Inductive result (A : Type) : Type :=
| Ok (a : A)
| Raise (e : exn).

Arguments Ok {A} a.
Arguments Raise {A} e.

Definition bind {A B : Type} (m : result A) (k : A -> result B) : result B :=
  match m with
  | Ok a => k a
  | Raise e => Raise e
  end.

(** A [for] loop that appends one element per iteration and may raise. *)
Fixpoint for_append {A B : Type} (body : A -> result B) (l : list A)
  : result (list B) :=
  match l with
  | [] => Ok []
  | a :: l' =>
      bind (body a) (fun b =>
      bind (for_append body l') (fun bs => Ok (b :: bs)))
  end.

(** [range(n)]: the integers [0 .. n-1], empty when [n <= 0]. *)
Definition range (n : Z) : list Z :=
  map Z.of_nat (seq 0 (Z.to_nat n)).

(** [enumerate(l)], counting from [k]. *)
Fixpoint enumerate_from {A : Type} (k : Z) (l : list A) : list (Z * A) :=
  match l with
  | [] => []
  | a :: l' => (k, a) :: enumerate_from (k + 1) l'
  end.

Definition enumerate {A : Type} (l : list A) : list (Z * A) :=
  enumerate_from 0 l.

(** True division [a / d] by an [int] divisor: raises on a zero divisor. *)
Definition truediv (a : R) (d : Z) : result R :=
  if (d =? 0)%Z then Raise ZeroDivisionError else Ok (a / IZR d).

(** [math.radians] and [math.degrees]. *)
Definition radians (a : R) : R := a * (PI / 180).
Definition degrees (a : R) : R := a * (180 / PI).

(** [math.atan2(y, x)]: total, the angle of the point [(x, y)]. *)
Definition atan2 (y x : R) : R :=
  if Rlt_dec 0 x then atan (y / x)
  else if Rlt_dec x 0 then
    if Rle_dec 0 y then atan (y / x) + PI else atan (y / x) - PI
  else if Rlt_dec 0 y then PI / 2
  else if Rlt_dec y 0 then - (PI / 2)
  else 0.

End Py.

Import Py.

Notation "x <- m ;; k" := (bind m (fun x => k))
  (at level 61, m at next level, right associativity).

(** A pose dictionary with the keys ['x'], ['y'], ['z'], ['r']. *)
Record Pose : Type := mkPose {
  pose_x : R;
  pose_y : R;
  pose_z : R;
  pose_r : R
}.

(** The arm as the scripts see it: [magician.get_pose()] reads the live pose.
    No move is issued while a trajectory is being computed, so the pose is a
    constant of one call. *)
Record Magician : Type := mkMagician {
  get_pose : Pose
}.

(** One call [magician.ptp(mode, x, y, z, r)]. *)
Record PtpCall : Type := mkPtp {
  ptp_mode : Z;
  ptp_target : Pose
}.

(** ** execute_arc_trajectory.py *)

Module ExecuteArcTrajectory.

Record RobotArcController : Type := mkController {
  magician : Magician;
  current_pose : Pose
}.

(** [__init__]: the stored reference pose is a fixed default. *)
Definition init (m : Magician) : RobotArcController :=
  mkController m (mkPose 0 (-200) (-30) 0).

Definition calculate_arc_points (self : RobotArcController)
    (center_x center_y center_z : R) (radius : option R) (num_points : Z)
    (start_angle end_angle : R) (start_z end_z : option R)
    (z_variation_type : string) : result (list Pose) :=
  let radius :=
    match radius with
    | None =>
        let dx := pose_x (current_pose self) - center_x in
        let dy := pose_y (current_pose self) - center_y in
        sqrt (dx ^ 2 + dy ^ 2)
    | Some radius => radius
    end in
  let start_z :=
    match start_z with
    | None => center_z + pose_z (current_pose self)
    | Some start_z => center_z + start_z
    end in
  let end_z :=
    match end_z with
    | None => center_z + pose_z (current_pose self)
    | Some end_z => center_z + end_z
    end in
  let current_dx := pose_x (current_pose self) - center_x in
  let current_dy := pose_y (current_pose self) - center_y in
  let current_angle := degrees (atan2 current_dy current_dx) in
  angle_step <- truediv (end_angle - start_angle) (num_points - 1) ;;
  let angles :=
    map (fun i => start_angle + IZR i * angle_step) (range num_points) in
  for_append (fun '(i, angle) =>
    let angle_rad := radians angle in
    let x := center_x + radius * sin angle_rad in
    let y := center_y + radius * (- cos angle_rad) in
    progress <- truediv (IZR i) (num_points - 1) ;;
    let z :=
      if (z_variation_type =? "linear")%string then
        start_z + (end_z - start_z) * progress
      else if (z_variation_type =? "sine")%string then
        start_z + (end_z - start_z) * sin (progress * PI)
      else if (z_variation_type =? "cosine")%string then
        start_z + (end_z - start_z) * (1 - cos (progress * PI)) / 2
      else
        start_z + (end_z - start_z) * progress in
    let r := pose_r (current_pose self) in
    Ok (mkPose x y z r)) (enumerate angles).

(** The driving loop: every point is sent with [mode=0] (JUMP). *)
Definition execute_arc_trajectory (self : RobotArcController)
    (center_x center_y center_z : R) (radius : option R) (num_points : Z)
    (start_angle end_angle : R) (start_z end_z : option R)
    (z_variation_type : string) : result (list PtpCall) :=
  trajectory_points <-
    calculate_arc_points self center_x center_y center_z radius num_points
      start_angle end_angle start_z end_z z_variation_type ;;
  Ok (map (fun point => mkPtp 0 point) trajectory_points).

End ExecuteArcTrajectory.

(** ** circle_from_current_pos.py *)

Module CircleFromCurrentPos.

Record RobotArcController : Type := mkController {
  magician : Magician;
  current_pose : Pose
}.

Definition init (m : Magician) : RobotArcController :=
  mkController m (mkPose 0 (-200) (-30) 0).

Definition get_current_pose (self : RobotArcController) : Pose :=
  let pose := get_pose (magician self) in
  mkPose (pose_x pose) (pose_y pose) (pose_z pose) (pose_r pose).

(** The arc about an explicit centre, as this file repeats it. *)
Definition calculate_arc_points (self : RobotArcController)
    (center_x center_y center_z : R) (radius : option R) (num_points : Z)
    (start_angle end_angle : R) (start_z end_z : option R)
    (z_variation_type : string) : result (list Pose) :=
  let radius :=
    match radius with
    | None =>
        let dx := pose_x (current_pose self) - center_x in
        let dy := pose_y (current_pose self) - center_y in
        sqrt (dx ^ 2 + dy ^ 2)
    | Some radius => radius
    end in
  let start_z :=
    match start_z with
    | None => center_z + pose_z (current_pose self)
    | Some start_z => center_z + start_z
    end in
  let end_z :=
    match end_z with
    | None => center_z + pose_z (current_pose self)
    | Some end_z => center_z + end_z
    end in
  let current_dx := pose_x (current_pose self) - center_x in
  let current_dy := pose_y (current_pose self) - center_y in
  let current_angle := degrees (atan2 current_dy current_dx) in
  angle_step <- truediv (end_angle - start_angle) (num_points - 1) ;;
  let angles :=
    map (fun i => start_angle + IZR i * angle_step) (range num_points) in
  for_append (fun '(i, angle) =>
    let angle_rad := radians angle in
    let x := center_x + radius * sin angle_rad in
    let y := center_y + radius * (- cos angle_rad) in
    progress <- truediv (IZR i) (num_points - 1) ;;
    let z :=
      if (z_variation_type =? "linear")%string then
        start_z + (end_z - start_z) * progress
      else if (z_variation_type =? "sine")%string then
        start_z + (end_z - start_z) * sin (progress * PI)
      else if (z_variation_type =? "cosine")%string then
        start_z + (end_z - start_z) * (1 - cos (progress * PI)) / 2
      else
        start_z + (end_z - start_z) * progress in
    let r := pose_r (current_pose self) in
    Ok (mkPose x y z r)) (enumerate angles).

(** The circle whose centre is the live pose of the end effector. *)
Definition calculate_circle_points_from_current_pos
    (self : RobotArcController) (radius : R) (num_points : Z)
    (start_angle end_angle : R) (z_offset : R) (z_variation_type : string)
  : result (list Pose) :=
  let current_pose := get_current_pose self in
  let center_x := pose_x current_pose in
  let center_y := pose_y current_pose in
  let center_z := pose_z current_pose in
  let current_r := pose_r current_pose in
  angle_step <- truediv (end_angle - start_angle) (num_points - 1) ;;
  let angles :=
    map (fun i => start_angle + IZR i * angle_step) (range num_points) in
  for_append (fun '(i, angle) =>
    let angle_rad := radians angle in
    let x := center_x + radius * cos angle_rad in
    let y := center_y + radius * sin angle_rad in
    progress <-
      (if (num_points >? 1)%Z then truediv (IZR i) (num_points - 1)
       else Ok 0) ;;
    let z :=
      if (z_variation_type =? "linear")%string then
        center_z + z_offset * (2 * progress - 1)
      else if (z_variation_type =? "sine")%string then
        center_z + z_offset * sin (progress * 2 * PI)
      else if (z_variation_type =? "cosine")%string then
        center_z + z_offset * cos (progress * 2 * PI)
      else
        center_z in
    Ok (mkPose x y z current_r)) (enumerate angles).

Definition execute_arc_trajectory (self : RobotArcController)
    (center_x center_y center_z : R) (radius : option R) (num_points : Z)
    (start_angle end_angle : R) (start_z end_z : option R)
    (z_variation_type : string) : result (list PtpCall) :=
  trajectory_points <-
    calculate_arc_points self center_x center_y center_z radius num_points
      start_angle end_angle start_z end_z z_variation_type ;;
  Ok (map (fun point => mkPtp 0 point) trajectory_points).

(** The driving loop of the circle about the live pose: [mode=1] (MOVJ). *)
Definition execute_circle_from_current_pos (self : RobotArcController)
    (radius : R) (num_points : Z) (start_angle end_angle : R)
    (z_offset : R) (z_variation_type : string) : result (list PtpCall) :=
  trajectory_points <-
    calculate_circle_points_from_current_pos self radius num_points
      start_angle end_angle z_offset z_variation_type ;;
  Ok (map (fun point => mkPtp 1 point) trajectory_points).

End CircleFromCurrentPos.

(** ** execute_3d_circle.py *)

Module Execute3DCircle.

(** A numpy array of three numbers, indexed [0], [1], [2]. *)
Record Vec3 : Type := vec {
  at0 : R;
  at1 : R;
  at2 : R
}.

(** A 3x3 numpy array, kept as its three columns. *)
Record Mat3 : Type := column_stack {
  col0 : Vec3;
  col1 : Vec3;
  col2 : Vec3
}.

(** [a + b], [a - b], [k * a], [a / k] on arrays (elementwise). *)
Definition vadd (a b : Vec3) : Vec3 :=
  vec (at0 a + at0 b) (at1 a + at1 b) (at2 a + at2 b).
Definition vsub (a b : Vec3) : Vec3 :=
  vec (at0 a - at0 b) (at1 a - at1 b) (at2 a - at2 b).
Definition vscale (k : R) (a : Vec3) : Vec3 :=
  vec (k * at0 a) (k * at1 a) (k * at2 a).
Definition vdiv (a : Vec3) (k : R) : Vec3 :=
  vec (at0 a / k) (at1 a / k) (at2 a / k).

(** [np.dot], [np.cross], [np.linalg.norm]. *)
Definition dot (a b : Vec3) : R :=
  at0 a * at0 b + at1 a * at1 b + at2 a * at2 b.
Definition cross (a b : Vec3) : Vec3 :=
  vec (at1 a * at2 b - at2 a * at1 b)
      (at2 a * at0 b - at0 a * at2 b)
      (at0 a * at1 b - at1 a * at0 b).
Definition norm (a : Vec3) : R :=
  sqrt (at0 a * at0 a + at1 a * at1 a + at2 a * at2 a).

(** [m @ p]: row [i] of [m] times [p]. *)
Definition matvec (m : Mat3) (p : Vec3) : Vec3 :=
  vec (at0 (col0 m) * at0 p + at0 (col1 m) * at1 p + at0 (col2 m) * at2 p)
      (at1 (col0 m) * at0 p + at1 (col1 m) * at1 p + at1 (col2 m) * at2 p)
      (at2 (col0 m) * at0 p + at2 (col1 m) * at1 p + at2 (col2 m) * at2 p).

Record Robot3DCircleController : Type := mkController {
  magician : Magician
}.

Definition get_current_pose (self : Robot3DCircleController) : Pose :=
  let pose := get_pose (magician self) in
  mkPose (pose_x pose) (pose_y pose) (pose_z pose) (pose_r pose).

Definition normalize_vector (vector : Vec3) : Vec3 :=
  let norm := norm vector in
  if Req_dec_T norm 0 then vector else vdiv vector norm.

Definition create_rotation_matrix (normal_vector : Vec3)
    (up_vector : option Vec3) : Mat3 :=
  let n := normalize_vector normal_vector in
  let up_vector :=
    match up_vector with
    | None =>
        if Rlt_dec (Rabs (at0 n)) (9 / 10) then vec 1 0 0 else vec 0 1 0
    | Some up_vector => up_vector
    end in
  let u := vsub up_vector (vscale (dot up_vector n) n) in
  let u := normalize_vector u in
  let v := cross n u in
  let v := normalize_vector v in
  column_stack u v n.

Definition calculate_3d_circle_points (self : Robot3DCircleController)
    (center : Vec3) (radius : R) (normal_vector : Vec3) (num_points : Z)
    (start_angle end_angle : R) (up_vector : option Vec3)
  : result (list Pose) :=
  let rotation_matrix := create_rotation_matrix normal_vector up_vector in
  angles <-
    (if (num_points =? 1)%Z then Ok [start_angle]
     else
       angle_step <- truediv (end_angle - start_angle) (num_points - 1) ;;
       Ok (map (fun i => start_angle + IZR i * angle_step)
               (range num_points))) ;;
  let current_r := pose_r (get_current_pose self) in
  for_append (fun angle =>
    let angle_rad := radians angle in
    let local_x := radius * cos angle_rad in
    let local_y := radius * sin angle_rad in
    let local_z := 0 in
    let local_point := vec local_x local_y local_z in
    let global_point := vadd (matvec rotation_matrix local_point) center in
    Ok (mkPose (at0 global_point) (at1 global_point) (at2 global_point)
               current_r)) angles.

Definition execute_3d_circle (self : Robot3DCircleController)
    (center : Vec3) (radius : R) (normal_vector : Vec3) (num_points : Z)
    (start_angle end_angle : R) (up_vector : option Vec3) (mode : Z)
  : result (list PtpCall) :=
  trajectory_points <-
    calculate_3d_circle_points self center radius normal_vector num_points
      start_angle end_angle up_vector ;;
  Ok (map (fun point => mkPtp mode point) trajectory_points).

(** The half circle whose diameter joins the live pose and [target_point];
    it is run through [execute_3d_circle] with the angles 0 and 180, no
    up-direction hint and the default [mode=1]. *)
Definition execute_circle_from_current_to_point
    (self : Robot3DCircleController) (target_point : Vec3) (num_points : Z)
    (plane_normal : option Vec3) : result (list PtpCall) :=
  let current_pose := get_current_pose self in
  let current_point :=
    vec (pose_x current_pose) (pose_y current_pose) (pose_z current_pose) in
  let center := vdiv (vadd current_point target_point) 2 in
  let radius := norm (vsub target_point current_point) / 2 in
  let plane_normal :=
    match plane_normal with
    | None =>
        let line_vector := vsub target_point current_point in
        if Rlt_dec (Rabs (at2 line_vector)) (9 / 10 * norm line_vector)
        then cross line_vector (vec 0 0 1)
        else cross line_vector (vec 1 0 0)
    | Some plane_normal => plane_normal
    end in
  execute_3d_circle self center radius plane_normal num_points 0 180 None 1.

End Execute3DCircle.

(** ** execute_3d_circle.py, the basis at binary64 precision

    [normalize_vector] tests [norm == 0] on a computed number, so which
    branch runs can depend on rounding.  The vector helpers and
    [create_rotation_matrix] are therefore embedded a second time on IEEE
    binary64 numbers, operation by operation.  [np.dot] and
    [np.linalg.norm] (the square root of the dot product of the array with
    itself) add their three products in index order. *)

Module Execute3DCircleBinary64.

Import PrimFloat.
Local Open Scope float_scope.

Record Vec3 : Type := vec {
  at0 : float;
  at1 : float;
  at2 : float
}.

Record Mat3 : Type := column_stack {
  col0 : Vec3;
  col1 : Vec3;
  col2 : Vec3
}.

Definition vadd (a b : Vec3) : Vec3 :=
  vec (at0 a + at0 b) (at1 a + at1 b) (at2 a + at2 b).
Definition vsub (a b : Vec3) : Vec3 :=
  vec (at0 a - at0 b) (at1 a - at1 b) (at2 a - at2 b).
Definition vscale (k : float) (a : Vec3) : Vec3 :=
  vec (k * at0 a) (k * at1 a) (k * at2 a).
Definition vdiv (a : Vec3) (k : float) : Vec3 :=
  vec (at0 a / k) (at1 a / k) (at2 a / k).

Definition dot (a b : Vec3) : float :=
  at0 a * at0 b + at1 a * at1 b + at2 a * at2 b.
Definition cross (a b : Vec3) : Vec3 :=
  vec (at1 a * at2 b - at2 a * at1 b)
      (at2 a * at0 b - at0 a * at2 b)
      (at0 a * at1 b - at1 a * at0 b).
Definition norm (a : Vec3) : float := sqrt (dot a a).

Definition matvec (m : Mat3) (p : Vec3) : Vec3 :=
  vec (at0 (col0 m) * at0 p + at0 (col1 m) * at1 p + at0 (col2 m) * at2 p)
      (at1 (col0 m) * at0 p + at1 (col1 m) * at1 p + at1 (col2 m) * at2 p)
      (at2 (col0 m) * at0 p + at2 (col1 m) * at1 p + at2 (col2 m) * at2 p).

Definition normalize_vector (vector : Vec3) : Vec3 :=
  let norm := norm vector in
  if norm =? 0 then vector else vdiv vector norm.

Definition create_rotation_matrix (normal_vector : Vec3)
    (up_vector : option Vec3) : Mat3 :=
  let n := normalize_vector normal_vector in
  let up_vector :=
    match up_vector with
    | None =>
        if abs (at0 n) <? 0x1.ccccccccccccdp-1 then vec 1 0 0 else vec 0 1 0
    | Some up_vector => up_vector
    end in
  let u := vsub up_vector (vscale (dot up_vector n) n) in
  let u := normalize_vector u in
  let v := cross n u in
  let v := normalize_vector v in
  column_stack u v n.

(** [rotation_matrix @ local_point + center], as the generator places each
    point. *)
Definition global_point (rotation_matrix : Mat3) (local_point center : Vec3)
  : Vec3 :=
  vadd (matvec rotation_matrix local_point) center.

(** Numerical equality of two arrays, component by component. *)
Definition array_equal (a b : Vec3) : bool :=
  (at0 a =? at0 b) && (at1 a =? at1 b) && (at2 a =? at2 b).

End Execute3DCircleBinary64.

Import Execute3DCircle.

(** ** Vocabulary of the specification *)

(** The [i]-th of [n] evenly spaced angles, and its progress fraction. *)
Definition sample_angle (start_angle end_angle : R) (n i : Z) : R :=
  start_angle + IZR i * (end_angle - start_angle) / IZR (n - 1).

Definition sample_progress (n i : Z) : R := IZR i / IZR (n - 1).

(** The Z policies in their explicit start/end form; a name that is not
    recognised is read as Linear. *)
Definition start_end_z (name : string) (zS zE p : R) : R :=
  if (name =? "sine")%string then zS + (zE - zS) * sin (p * PI)
  else if (name =? "cosine")%string then zS + (zE - zS) * (1 - cos (p * PI)) / 2
  else zS + (zE - zS) * p.

(** The Z policies in their offset-around-centre form; any other name is
    the policy None. *)
Definition offset_z (name : string) (zC zOff p : R) : R :=
  if (name =? "linear")%string then zC + zOff * (2 * p - 1)
  else if (name =? "sine")%string then zC + zOff * sin (p * 2 * PI)
  else if (name =? "cosine")%string then zC + zOff * cos (p * 2 * PI)
  else zC.

Definition recognized (name : string) : Prop :=
  name = "linear"%string \/ name = "sine"%string \/ name = "cosine"%string.

(** Radius and Z bounds of the explicit-centre arc: derived from the
    reference pose when absent, the bounds offset by the centre height. *)
Definition arc_radius (reference : Pose) (center_x center_y : R)
    (radius : option R) : R :=
  match radius with
  | Some r => r
  | None =>
      sqrt ((pose_x reference - center_x) ^ 2 +
            (pose_y reference - center_y) ^ 2)
  end.

Definition arc_z_bound (reference : Pose) (center_z : R) (bound : option R)
  : R :=
  match bound with
  | Some b => center_z + b
  | None => center_z + pose_z reference
  end.

(** Convention A and convention B for the in-plane point at angle [theta]
    (degrees) on the circle of radius [r] about [(cx, cy)]. *)
Definition convention_A (cx cy r theta : R) : R * R :=
  (cx + r * sin (radians theta), cy - r * cos (radians theta)).

Definition convention_B (cx cy r theta : R) : R * R :=
  (cx + r * cos (radians theta), cy + r * sin (radians theta)).

(** What the explicit-centre arc appends for index [i]. *)
Definition arc_point (reference : Pose) (center_x center_y center_z : R)
    (radius : option R) (num_points : Z) (start_angle end_angle : R)
    (start_z end_z : option R) (z_variation_type : string) (i : Z) : Pose :=
  let theta := sample_angle start_angle end_angle num_points i in
  let (x, y) :=
    convention_A center_x center_y
      (arc_radius reference center_x center_y radius) theta in
  mkPose x y
    (start_end_z z_variation_type
       (arc_z_bound reference center_z start_z)
       (arc_z_bound reference center_z end_z)
       (sample_progress num_points i))
    (pose_r reference).

(** What the circle about the live pose appends for index [i]. *)
Definition circle_point (live : Pose) (radius : R) (num_points : Z)
    (start_angle end_angle z_offset : R) (z_variation_type : string) (i : Z)
  : Pose :=
  let theta := sample_angle start_angle end_angle num_points i in
  let (x, y) := convention_B (pose_x live) (pose_y live) radius theta in
  mkPose x y
    (offset_z z_variation_type (pose_z live) z_offset
       (sample_progress num_points i))
    (pose_r live).

(** What the oriented generator appends for the angle [theta]: the image of
    the local convention-B point under the basis, moved to the centre. *)
Definition oriented_point (basis : Mat3) (center : Vec3) (radius r theta : R)
  : Pose :=
  let local_point :=
    vec (radius * cos (radians theta)) (radius * sin (radians theta)) 0 in
  let global_point := vadd (matvec basis local_point) center in
  mkPose (at0 global_point) (at1 global_point) (at2 global_point) r.

(** A result that is a sequence of [n] points, the [i]-th related to its
    index by [P]. *)
Definition returns_points (out : result (list Pose)) (n : Z)
    (P : Z -> Pose -> Prop) : Prop :=
  exists pts,
    out = Ok pts /\
    List.length pts = Z.to_nat n /\
    forall i, (0 <= i < n)%Z ->
      exists p, nth_error pts (Z.to_nat i) = Some p /\ P i p.

Definition vzero : Vec3 := vec 0 0 0.

(** [a] is parallel to [b] when it is a multiple of it. *)
Definition parallel (a b : Vec3) : Prop := exists k, a = vscale k b.

(** The hint with its component along [n] removed. *)
Definition in_plane_part (hint n : Vec3) : Vec3 :=
  vsub hint (vscale (dot hint n) n).

(** The axis-aligned convention-B point about [center], at its height. *)
Definition planar_B_point (center : Vec3) (radius r theta : R) : Pose :=
  let (x, y) := convention_B (at0 center) (at1 center) radius theta in
  mkPose x y (at2 center) r.

(** A call is rejected when it raises instead of returning. *)
Definition rejected {A : Type} (out : result A) : Prop :=
  exists e, out = Raise e.

(** The columns [u], [v], [n] of a basis are unit vectors, pairwise
    orthogonal, with [v = n x u]. *)
Definition orthonormal (basis : Mat3) : Prop :=
  let u := col0 basis in
  let v := col1 basis in
  let n := col2 basis in
  norm u = 1 /\ norm v = 1 /\ norm n = 1 /\
  dot u v = 0 /\ dot v n = 0 /\ dot u n = 0 /\ v = cross n u.

(** A hint the basis can be built from: absent, or not along the normal. *)
Definition usable_hint (normal : Vec3) (up : option Vec3) : Prop :=
  match up with
  | Some hint => ~ parallel hint normal
  | None => True
  end.

(** The offset of a pose from a point. *)
Definition offset_from (center : Vec3) (p : Pose) : Vec3 :=
  vsub (vec (pose_x p) (pose_y p) (pose_z p)) center.

(** A result that is a sequence whose first point and whose point of index
    [n - 1] are related by [Q]. *)
Definition first_last {A : Type} (out : result (list A)) (n : Z)
    (Q : A -> A -> Prop) : Prop :=
  exists pts p0 pl,
    out = Ok pts /\
    nth_error pts 0 = Some p0 /\
    nth_error pts (Z.to_nat (n - 1)) = Some pl /\
    Q p0 pl.

Ltac vec_eq := unfold in_plane_part, cross, vsub, vadd, vscale, vdiv, dot;
  cbn [at0 at1 at2]; try (f_equal; field); try lra.

(** ** Loops, ranges and enumerations *)

Section Loops.

Context {A B : Type}.

Lemma for_append_total (body : A -> result B) (g : A -> B) (l : list A) :
  (forall a, In a l -> body a = Ok (g a)) ->
  for_append body l = Ok (map g l).
Proof.
  induction l as [|a l IH]; intros Hbody; simpl.
  - reflexivity.
  - rewrite (Hbody a (or_introl eq_refl)). simpl.
    rewrite IH by (intros b Hb; apply Hbody; right; exact Hb).
    reflexivity.
Qed.

Lemma enumerate_from_seq (f : Z -> A) (n s : nat) :
  enumerate_from (Z.of_nat s) (map f (map Z.of_nat (seq s n))) =
  map (fun i => (i, f i)) (map Z.of_nat (seq s n)).
Proof.
  revert s. induction n as [|n IH]; intros s; simpl.
  - reflexivity.
  - f_equal.
    replace (Z.of_nat s + 1)%Z with (Z.of_nat (S s)) by lia.
    apply IH.
Qed.

Lemma enumerate_range (f : Z -> A) (n : Z) :
  enumerate (map f (range n)) = map (fun i => (i, f i)) (range n).
Proof. exact (enumerate_from_seq f (Z.to_nat n) 0). Qed.

End Loops.

Lemma range_length (n : Z) : List.length (range n) = Z.to_nat n.
Proof. unfold range. rewrite length_map, length_seq. reflexivity. Qed.

Lemma range_In (n i : Z) : In i (range n) <-> (0 <= i < n)%Z.
Proof.
  unfold range. rewrite in_map_iff. split.
  - intros [k [<- Hk]]. apply in_seq in Hk. lia.
  - intros Hi. exists (Z.to_nat i). split; [lia|]. apply in_seq. lia.
Qed.

Lemma range_nth_error (n i : Z) :
  (0 <= i < n)%Z -> nth_error (range n) (Z.to_nat i) = Some i.
Proof.
  intros Hi. unfold range.
  rewrite nth_error_map, nth_error_seq.
  destruct (Nat.ltb_spec (Z.to_nat i) (Z.to_nat n)) as [_|Hge]; [|lia].
  simpl. f_equal. lia.
Qed.

Lemma range_nonpositive (n : Z) : (n <= 0)%Z -> range n = [].
Proof.
  intros Hn. unfold range.
  replace (Z.to_nat n) with 0%nat by lia. reflexivity.
Qed.

Lemma map_range_nth_error {A : Type} (f : Z -> A) (n i : Z) :
  (0 <= i < n)%Z -> nth_error (map f (range n)) (Z.to_nat i) = Some (f i).
Proof.
  intros Hi. rewrite nth_error_map, (range_nth_error n i Hi). reflexivity.
Qed.

Lemma truediv_nonzero (a : R) (d : Z) :
  d <> 0%Z -> truediv a d = Ok (a / IZR d).
Proof.
  intros Hd. unfold truediv.
  destruct (Z.eqb_spec d 0) as [H0|_]; [contradiction|reflexivity].
Qed.

Lemma truediv_zero (a : R) : truediv a 0 = Raise ZeroDivisionError.
Proof. reflexivity. Qed.

Lemma IZR_pred_nonzero (n : Z) : n <> 1%Z -> IZR (n - 1) <> 0.
Proof. intros Hn. apply not_0_IZR. lia. Qed.

Lemma sample_angle_step (start_angle end_angle : R) (n i : Z) :
  start_angle + IZR i * ((end_angle - start_angle) / IZR (n - 1)) =
  sample_angle start_angle end_angle n i.
Proof. unfold sample_angle, Rdiv. ring. Qed.

Lemma sample_angle_first (start_angle end_angle : R) (n : Z) :
  sample_angle start_angle end_angle n 0 = start_angle.
Proof. unfold sample_angle, Rdiv. ring. Qed.

Lemma sample_angle_last (start_angle end_angle : R) (n : Z) :
  n <> 1%Z -> sample_angle start_angle end_angle n (n - 1) = end_angle.
Proof.
  intros Hn. unfold sample_angle. field. apply IZR_pred_nonzero, Hn.
Qed.

Lemma sample_progress_first (n : Z) : sample_progress n 0 = 0.
Proof. unfold sample_progress, Rdiv. ring. Qed.

Lemma sample_progress_last (n : Z) :
  n <> 1%Z -> sample_progress n (n - 1) = 1.
Proof.
  intros Hn. unfold sample_progress. field. apply IZR_pred_nonzero, Hn.
Qed.

Lemma sample_angle_spacing (start_angle end_angle : R) (n i : Z) :
  sample_angle start_angle end_angle n (i + 1) -
  sample_angle start_angle end_angle n i =
  (end_angle - start_angle) / IZR (n - 1).
Proof. unfold sample_angle, Rdiv. rewrite plus_IZR. ring. Qed.

Lemma sample_progress_spacing (n i : Z) :
  sample_progress n (i + 1) - sample_progress n i = 1 / IZR (n - 1).
Proof. unfold sample_progress, Rdiv. rewrite plus_IZR. ring. Qed.

(** The dispatch on the policy name, as the arc generators write it. *)
Lemma start_end_dispatch (name : string) (zS zE p : R) :
  (if (name =? "linear")%string then zS + (zE - zS) * p
   else if (name =? "sine")%string then zS + (zE - zS) * sin (p * PI)
   else if (name =? "cosine")%string then
     zS + (zE - zS) * (1 - cos (p * PI)) / 2
   else zS + (zE - zS) * p) = start_end_z name zS zE p.
Proof.
  unfold start_end_z.
  destruct (String.eqb_spec name "linear") as [->|_]; reflexivity.
Qed.

Lemma start_end_z_fallback (name : string) (zS zE p : R) :
  ~ recognized name -> start_end_z name zS zE p = zS + (zE - zS) * p.
Proof.
  intros Hname. unfold start_end_z, recognized in *.
  destruct (String.eqb_spec name "sine") as [->|_]; [tauto|].
  destruct (String.eqb_spec name "cosine") as [->|_]; [tauto|].
  reflexivity.
Qed.

Lemma offset_z_fallback (name : string) (zC zOff p : R) :
  ~ recognized name -> offset_z name zC zOff p = zC.
Proof.
  intros Hname. unfold offset_z, recognized in *.
  destruct (String.eqb_spec name "linear") as [->|_]; [tauto|].
  destruct (String.eqb_spec name "sine") as [->|_]; [tauto|].
  destruct (String.eqb_spec name "cosine") as [->|_]; [tauto|].
  reflexivity.
Qed.

(** ** Closed forms of the three generators *)

Lemma arc_points_closed_form (self : ExecuteArcTrajectory.RobotArcController)
    (cx cy cz : R) (radius : option R) (n : Z) (sa ea : R)
    (sz ez : option R) (name : string) :
  n <> 1%Z ->
  ExecuteArcTrajectory.calculate_arc_points self cx cy cz radius n sa ea
    sz ez name =
  Ok (map (arc_point (ExecuteArcTrajectory.current_pose self) cx cy cz
             radius n sa ea sz ez name) (range n)).
Proof.
  intros Hn. unfold ExecuteArcTrajectory.calculate_arc_points.
  rewrite truediv_nonzero by lia. cbn [bind].
  rewrite enumerate_range.
  rewrite (for_append_total _
             (fun p => arc_point (ExecuteArcTrajectory.current_pose self)
                         cx cy cz radius n sa ea sz ez name (fst p))).
  - rewrite map_map. reflexivity.
  - intros [i angle] Hin. apply in_map_iff in Hin.
    destruct Hin as [j [Heq _]]. inversion Heq; subst; clear Heq.
    rewrite truediv_nonzero by lia. cbn [bind fst].
    rewrite start_end_dispatch, sample_angle_step.
    unfold arc_point, convention_A, arc_radius, arc_z_bound, sample_progress.
    destruct radius, sz, ez; f_equal; f_equal; ring.
Qed.

Lemma arc_points_copy_closed_form
    (self : CircleFromCurrentPos.RobotArcController)
    (cx cy cz : R) (radius : option R) (n : Z) (sa ea : R)
    (sz ez : option R) (name : string) :
  n <> 1%Z ->
  CircleFromCurrentPos.calculate_arc_points self cx cy cz radius n sa ea
    sz ez name =
  Ok (map (arc_point (CircleFromCurrentPos.current_pose self) cx cy cz
             radius n sa ea sz ez name) (range n)).
Proof.
  intros Hn. unfold CircleFromCurrentPos.calculate_arc_points.
  rewrite truediv_nonzero by lia. cbn [bind].
  rewrite enumerate_range.
  rewrite (for_append_total _
             (fun p => arc_point (CircleFromCurrentPos.current_pose self)
                         cx cy cz radius n sa ea sz ez name (fst p))).
  - rewrite map_map. reflexivity.
  - intros [i angle] Hin. apply in_map_iff in Hin.
    destruct Hin as [j [Heq _]]. inversion Heq; subst; clear Heq.
    rewrite truediv_nonzero by lia. cbn [bind fst].
    rewrite start_end_dispatch, sample_angle_step.
    unfold arc_point, convention_A, arc_radius, arc_z_bound, sample_progress.
    destruct radius, sz, ez; f_equal; f_equal; ring.
Qed.

Lemma circle_points_closed_form
    (self : CircleFromCurrentPos.RobotArcController)
    (radius : R) (n : Z) (sa ea z_offset : R) (name : string) :
  n <> 1%Z ->
  CircleFromCurrentPos.calculate_circle_points_from_current_pos self radius
    n sa ea z_offset name =
  Ok (map (circle_point (get_pose (CircleFromCurrentPos.magician self))
             radius n sa ea z_offset name) (range n)).
Proof.
  intros Hn.
  unfold CircleFromCurrentPos.calculate_circle_points_from_current_pos.
  rewrite truediv_nonzero by lia. cbn [bind].
  rewrite enumerate_range.
  rewrite (for_append_total _
             (fun p => circle_point
                         (get_pose (CircleFromCurrentPos.magician self))
                         radius n sa ea z_offset name (fst p))).
  - rewrite map_map. reflexivity.
  - intros [i angle] Hin. apply in_map_iff in Hin.
    destruct Hin as [j [Heq Hj]]. inversion Heq; subst; clear Heq.
    apply range_In in Hj.
    destruct (Z.gtb_spec n 1) as [_|Hle]; [|lia].
    rewrite truediv_nonzero by lia. cbn [bind fst].
    rewrite sample_angle_step.
    unfold circle_point, convention_B, offset_z, sample_progress.
    unfold CircleFromCurrentPos.get_current_pose. cbn [pose_x pose_y pose_z pose_r].
    reflexivity.
Qed.

Lemma circle_3d_closed_form (self : Robot3DCircleController)
    (center : Vec3) (radius : R) (normal : Vec3) (n : Z) (sa ea : R)
    (up : option Vec3) :
  calculate_3d_circle_points self center radius normal n sa ea up =
  Ok (map (fun i =>
             oriented_point (create_rotation_matrix normal up) center radius
               (pose_r (get_pose (magician self)))
               (sample_angle sa ea n i)) (range n)).
Proof.
  unfold calculate_3d_circle_points.
  destruct (Z.eqb_spec n 1) as [->|Hn].
  - change (range 1) with [0%Z]. cbn [map].
    rewrite sample_angle_first. reflexivity.
  - rewrite truediv_nonzero by lia. cbn [bind].
    rewrite (for_append_total _
               (oriented_point (create_rotation_matrix normal up) center
                  radius (pose_r (get_pose (magician self))))).
    + rewrite map_map. apply f_equal, map_ext. intros i.
      rewrite sample_angle_step. reflexivity.
    + intros angle _. reflexivity.
Qed.

Lemma returns_points_map (f : Z -> Pose) (n : Z) (P : Z -> Pose -> Prop) :
  (forall i, (0 <= i < n)%Z -> P i (f i)) ->
  returns_points (Ok (map f (range n))) n P.
Proof.
  intros HP. exists (map f (range n)). split; [reflexivity|]. split.
  - rewrite length_map. apply range_length.
  - intros i Hi. exists (f i). split; [|apply HP, Hi].
    apply map_range_nth_error, Hi.
Qed.

(** ** Vectors *)

Lemma dot_self_nonneg (v : Vec3) : 0 <= dot v v.
Proof. unfold dot. nra. Qed.

Lemma norm_nonneg (v : Vec3) : 0 <= norm v.
Proof. apply sqrt_pos. Qed.

Lemma norm_sqr (v : Vec3) : norm v * norm v = dot v v.
Proof. apply sqrt_sqrt, dot_self_nonneg. Qed.

Lemma norm_unique (v : Vec3) (k : R) :
  0 <= k -> dot v v = k * k -> norm v = k.
Proof.
  intros Hk Hv. change (norm v) with (sqrt (dot v v)).
  rewrite Hv. apply sqrt_square, Hk.
Qed.

Lemma norm_zero_inv (v : Vec3) : norm v = 0 -> v = vzero.
Proof.
  intros H0. pose proof (norm_sqr v) as Hs. rewrite H0 in Hs.
  destruct v as [x y z]. unfold dot in Hs. cbn in Hs.
  assert (x = 0) by nra. assert (y = 0) by nra. assert (z = 0) by nra.
  subst. reflexivity.
Qed.

Lemma norm_vzero : norm vzero = 0.
Proof. apply norm_unique; [lra|]. unfold dot, vzero. cbn. ring. Qed.

Lemma norm_positive (v : Vec3) : v <> vzero -> 0 < norm v.
Proof.
  intros Hv. destruct (norm_nonneg v) as [Hlt|Heq]; [exact Hlt|].
  exfalso. apply Hv, norm_zero_inv. symmetry. exact Heq.
Qed.

Lemma normalize_vzero : normalize_vector vzero = vzero.
Proof.
  unfold normalize_vector. rewrite norm_vzero.
  destruct (Req_dec_T 0 0) as [_|Hne]; [reflexivity|contradiction].
Qed.

Lemma normalize_nonzero (v : Vec3) :
  v <> vzero -> normalize_vector v = vdiv v (norm v).
Proof.
  intros Hv. unfold normalize_vector.
  destruct (Req_dec_T (norm v) 0) as [H0|_]; [|reflexivity].
  exfalso. apply Hv, norm_zero_inv, H0.
Qed.

Lemma norm_vdiv_self (v : Vec3) : v <> vzero -> norm (vdiv v (norm v)) = 1.
Proof.
  intros Hv. pose proof (norm_positive v Hv) as Hpos.
  pose proof (norm_sqr v) as Hs.
  apply norm_unique; [lra|].
  destruct v as [x y z]. unfold dot, vdiv in *. cbn in *.
  set (k := norm (vec x y z)) in *.
  replace (x / k * (x / k) + y / k * (y / k) + z / k * (z / k))
    with ((x * x + y * y + z * z) / (k * k)) by (field; lra).
  rewrite <- Hs. field. lra.
Qed.

Lemma normalize_unit (v : Vec3) :
  v <> vzero -> norm (normalize_vector v) = 1.
Proof.
  intros Hv. rewrite normalize_nonzero by exact Hv.
  apply norm_vdiv_self, Hv.
Qed.

Lemma vdiv_one (v : Vec3) : vdiv v 1 = v.
Proof. destruct v as [x y z]. unfold vdiv. cbn. f_equal; field. Qed.

Lemma normalize_of_unit (v : Vec3) : norm v = 1 -> normalize_vector v = v.
Proof.
  intros H1. unfold normalize_vector. rewrite H1.
  destruct (Req_dec_T 1 0) as [H0|_]; [lra|apply vdiv_one].
Qed.

Lemma dot_vdiv_l (a b : Vec3) (k : R) :
  k <> 0 -> dot (vdiv a k) b = dot a b / k.
Proof. intros Hk. unfold dot, vdiv. cbn. field. exact Hk. Qed.

Lemma dot_comm (a b : Vec3) : dot a b = dot b a.
Proof. unfold dot. ring. Qed.


Lemma dot_cross_l (a b : Vec3) : dot a (cross a b) = 0.
Proof. unfold dot, cross. cbn. ring. Qed.

Lemma dot_cross_r (a b : Vec3) : dot b (cross a b) = 0.
Proof. unfold dot, cross. cbn. ring. Qed.

(** Lagrange's identity. *)
Lemma cross_dot_self (a b : Vec3) :
  dot (cross a b) (cross a b) = dot a a * dot b b - dot a b * dot a b.
Proof. unfold dot, cross. cbn. ring. Qed.

(** ** The plane basis *)

Lemma create_rotation_matrix_hint (normal hint : Vec3) :
  create_rotation_matrix normal (Some hint) =
  let n := normalize_vector normal in
  let u := normalize_vector (in_plane_part hint n) in
  column_stack u (normalize_vector (cross n u)) n.
Proof. reflexivity. Qed.

Lemma dot_self_of_unit (v : Vec3) : norm v = 1 -> dot v v = 1.
Proof. intros H1. rewrite <- norm_sqr, H1. ring. Qed.

Lemma in_plane_part_orthogonal (hint n : Vec3) :
  dot n n = 1 -> dot (in_plane_part hint n) n = 0.
Proof.
  intros Hn. unfold in_plane_part.
  replace (dot (vsub hint (vscale (dot hint n) n)) n)
    with (dot hint n - dot hint n * dot n n)
    by (unfold dot, vsub, vscale; cbn; ring).
  rewrite Hn. ring.
Qed.

Lemma in_plane_part_vzero_inv (hint n : Vec3) :
  in_plane_part hint n = vzero -> hint = vscale (dot hint n) n.
Proof.
  unfold in_plane_part, vsub, vzero. intros Hw.
  injection Hw as H0 H1 H2.
  destruct hint as [h0 h1 h2]. cbn in *.
  unfold vscale. cbn. f_equal; lra.
Qed.

Lemma in_plane_part_nonzero (normal hint : Vec3) :
  normal <> vzero -> ~ parallel hint normal ->
  in_plane_part hint (normalize_vector normal) <> vzero.
Proof.
  intros Hnormal Hhint Hw. apply Hhint.
  apply in_plane_part_vzero_inv in Hw.
  rewrite normalize_nonzero in Hw by exact Hnormal.
  pose proof (norm_positive normal Hnormal) as Hpos.
  exists (dot hint (vdiv normal (norm normal)) / norm normal).
  rewrite Hw at 1. unfold vscale, vdiv. cbn. f_equal; field; lra.
Qed.

Lemma cross_of_orthonormal (n u : Vec3) :
  norm n = 1 -> norm u = 1 -> dot u n = 0 -> norm (cross n u) = 1.
Proof.
  intros Hn Hu Hun. apply norm_unique; [lra|].
  rewrite cross_dot_self, (dot_comm n u), Hun.
  rewrite (dot_self_of_unit n Hn), (dot_self_of_unit u Hu). ring.
Qed.

(** The basis built from a usable hint is orthonormal and right-handed. *)
Lemma basis_orthonormal (normal hint : Vec3) :
  normal <> vzero -> ~ parallel hint normal ->
  let n := normalize_vector normal in
  let u := normalize_vector (in_plane_part hint n) in
  let v := normalize_vector (cross n u) in
  norm n = 1 /\ norm u = 1 /\ dot u n = 0 /\ v = cross n u /\ norm v = 1.
Proof.
  intros Hnormal Hhint n u v.
  assert (Hn : norm n = 1) by (apply normalize_unit, Hnormal).
  pose proof (in_plane_part_nonzero normal hint Hnormal Hhint) as Hw.
  fold n in Hw.
  assert (Hu : norm u = 1) by (apply normalize_unit, Hw).
  assert (Hun : dot u n = 0).
  { unfold u. rewrite normalize_nonzero by exact Hw.
    rewrite dot_vdiv_l by (pose proof (norm_positive _ Hw); lra).
    rewrite in_plane_part_orthogonal by (apply dot_self_of_unit, Hn).
    unfold Rdiv. ring. }
  pose proof (cross_of_orthonormal n u Hn Hu Hun) as Hc.
  assert (Hv : v = cross n u) by (apply normalize_of_unit, Hc).
  repeat split; try assumption. rewrite Hv. exact Hc.
Qed.



Lemma map_constant {A B : Type} (f : A -> B) (b : B) (l : list A) :
  (forall a, f a = b) -> map f l = repeat b (List.length l).
Proof.
  intros Hf. induction l as [|a l IH]; simpl; [reflexivity|].
  rewrite Hf, IH. reflexivity.
Qed.

(** ** Evaluating the basis on given vectors *)

Lemma create_rotation_matrix_default (normal : Vec3) :
  create_rotation_matrix normal None =
  create_rotation_matrix normal
    (Some (if Rlt_dec (Rabs (at0 (normalize_vector normal))) (9 / 10)
           then vec 1 0 0 else vec 0 1 0)).
Proof. reflexivity. Qed.

Lemma normalize_scaled (v n : Vec3) (k : R) :
  0 < k -> dot v v = k * k -> vdiv v k = n -> normalize_vector v = n.
Proof.
  intros Hk Hv Hn. unfold normalize_vector.
  rewrite (norm_unique v k) by (lra || exact Hv).
  destruct (Req_dec_T k 0) as [H0|_]; [lra|exact Hn].
Qed.

Lemma basis_of_units (normal hint n u v : Vec3) :
  normalize_vector normal = n ->
  in_plane_part hint n = u -> dot u u = 1 ->
  cross n u = v -> dot v v = 1 ->
  create_rotation_matrix normal (Some hint) = column_stack u v n.
Proof.
  intros Hn Hu Hu1 Hv Hv1. rewrite create_rotation_matrix_hint. cbv zeta.
  rewrite Hn, Hu.
  assert (Hnu : normalize_vector u = u).
  { apply normalize_of_unit, norm_unique; [lra|]. rewrite Hu1. ring. }
  rewrite Hnu, Hv.
  assert (Hnv : normalize_vector v = v).
  { apply normalize_of_unit, norm_unique; [lra|]. rewrite Hv1. ring. }
  rewrite Hnv. reflexivity.
Qed.

(** Normal along Z, hint along X: the basis is the canonical one. *)
Lemma basis_xy_plane :
  create_rotation_matrix (vec 0 0 1) (Some (vec 1 0 0)) =
  column_stack (vec 1 0 0) (vec 0 1 0) (vec 0 0 1).
Proof.
  apply basis_of_units.
  - apply (normalize_scaled _ _ 1); [lra| |]; vec_eq.
  - vec_eq.
  - vec_eq.
  - vec_eq.
  - vec_eq.
Qed.

(** The normal the half circle from the origin to (10,0,0) is given. *)
Lemma basis_xz_plane :
  create_rotation_matrix (vec 0 (-10) 0) None =
  column_stack (vec 1 0 0) (vec 0 0 1) (vec 0 (-1) 0).
Proof.
  assert (Hn : normalize_vector (vec 0 (-10) 0) = vec 0 (-1) 0).
  { apply (normalize_scaled _ _ 10); [lra| |]; vec_eq. }
  rewrite create_rotation_matrix_default, Hn. cbn [at0].
  rewrite Rabs_R0.
  destruct (Rlt_dec 0 (9 / 10)) as [_|Hge]; [|lra].
  apply basis_of_units; [exact Hn| | | |]; vec_eq.
Qed.

(** ** The claims *)

(** C1.  With [num_points = n >= 2] each of the generators returns exactly
    [n] points; the [i]-th is built from the angle
    [start_angle + i * (end_angle - start_angle) / (n - 1)] and, where the
    generator has a Z policy, from the progress [i / (n - 1)].  The angles
    are evenly spaced, the first is [start_angle] and the last [end_angle];
    the progress values are evenly spaced from 0 to 1.  The oriented
    generator computes no progress value: its points depend on the angle
    alone. *)
Theorem even_sampling
    (arc : ExecuteArcTrajectory.RobotArcController)
    (cur : CircleFromCurrentPos.RobotArcController)
    (ctl : Robot3DCircleController)
    (cx cy cz : R) (arc_radius_opt : option R) (sz ez : option R)
    (circle_radius z_offset : R) (center normal : Vec3) (radius3 : R)
    (up : option Vec3) (name : string) (n : Z) (sa ea : R) :
  (2 <= n)%Z ->
  returns_points
    (ExecuteArcTrajectory.calculate_arc_points arc cx cy cz arc_radius_opt n
       sa ea sz ez name) n
    (fun i p =>
       p = arc_point (ExecuteArcTrajectory.current_pose arc) cx cy cz
             arc_radius_opt n sa ea sz ez name i) /\
  returns_points
    (CircleFromCurrentPos.calculate_arc_points cur cx cy cz arc_radius_opt n
       sa ea sz ez name) n
    (fun i p =>
       p = arc_point (CircleFromCurrentPos.current_pose cur) cx cy cz
             arc_radius_opt n sa ea sz ez name i) /\
  returns_points
    (CircleFromCurrentPos.calculate_circle_points_from_current_pos cur
       circle_radius n sa ea z_offset name) n
    (fun i p =>
       p = circle_point (get_pose (CircleFromCurrentPos.magician cur))
             circle_radius n sa ea z_offset name i) /\
  returns_points
    (calculate_3d_circle_points ctl center radius3 normal n sa ea up) n
    (fun i p =>
       p = oriented_point (create_rotation_matrix normal up) center radius3
             (pose_r (get_pose (magician ctl))) (sample_angle sa ea n i)) /\
  sample_angle sa ea n 0 = sa /\
  sample_angle sa ea n (n - 1) = ea /\
  (forall i, sample_angle sa ea n (i + 1) - sample_angle sa ea n i =
             (ea - sa) / IZR (n - 1)) /\
  sample_progress n 0 = 0 /\
  sample_progress n (n - 1) = 1 /\
  (forall i, sample_progress n (i + 1) - sample_progress n i =
             1 / IZR (n - 1)).
Proof.
  intros Hn. assert (Hn1 : n <> 1%Z) by lia.
  repeat split.
  - rewrite arc_points_closed_form by exact Hn1.
    apply returns_points_map. reflexivity.
  - rewrite arc_points_copy_closed_form by exact Hn1.
    apply returns_points_map. reflexivity.
  - rewrite circle_points_closed_form by exact Hn1.
    apply returns_points_map. reflexivity.
  - rewrite circle_3d_closed_form.
    apply returns_points_map. reflexivity.
  - apply sample_angle_first.
  - apply sample_angle_last, Hn1.
  - intros i. apply sample_angle_spacing.
  - apply sample_progress_first.
  - apply sample_progress_last, Hn1.
  - intros i. apply sample_progress_spacing.
Qed.

Lemma even_sampling_witness :
  (2 <= 50)%Z /\
  returns_points
    (ExecuteArcTrajectory.calculate_arc_points
       (ExecuteArcTrajectory.init (mkMagician (mkPose 0 (-200) (-30) 0)))
       0 0 0 (Some 200) 50 0 90 (Some (-35)) (Some (-35)) "linear") 50
    (fun i p =>
       p = arc_point (mkPose 0 (-200) (-30) 0) 0 0 0 (Some 200) 50 0 90
             (Some (-35)) (Some (-35)) "linear" i).
Proof.
  split; [lia|].
  refine (proj1 (even_sampling
    (ExecuteArcTrajectory.init (mkMagician (mkPose 0 (-200) (-30) 0)))
    (CircleFromCurrentPos.init (mkMagician (mkPose 200 0 30 0)))
    (mkController (mkMagician (mkPose 200 0 50 0)))
    0 0 0 (Some 200) (Some (-35)) (Some (-35)) 20 0
    (vec 200 0 50) (vec 0 0 1) 30 None "linear" 50 0 90 _)).
  lia.
Defined.

(** C2.  For every sampled angle [theta] the explicit-centre arc places its
    point by convention A, [x = center_x + r sin theta] and
    [y = center_y - r cos theta]; the circle about the live pose uses
    convention B, [x = center_x + r cos theta] and
    [y = center_y + r sin theta]; the oriented generator uses convention B
    for the local point, which the basis then carries to the centre. *)
Theorem axis_conventions
    (arc : ExecuteArcTrajectory.RobotArcController)
    (cur : CircleFromCurrentPos.RobotArcController)
    (ctl : Robot3DCircleController)
    (cx cy cz : R) (arc_radius_opt : option R) (sz ez : option R)
    (circle_radius z_offset : R) (center normal : Vec3) (radius3 : R)
    (up : option Vec3) (name : string) (n : Z) (sa ea : R) :
  n <> 1%Z ->
  returns_points
    (ExecuteArcTrajectory.calculate_arc_points arc cx cy cz arc_radius_opt n
       sa ea sz ez name) n
    (fun i p =>
       (pose_x p, pose_y p) =
       convention_A cx cy
         (arc_radius (ExecuteArcTrajectory.current_pose arc) cx cy
            arc_radius_opt)
         (sample_angle sa ea n i)) /\
  returns_points
    (CircleFromCurrentPos.calculate_arc_points cur cx cy cz arc_radius_opt n
       sa ea sz ez name) n
    (fun i p =>
       (pose_x p, pose_y p) =
       convention_A cx cy
         (arc_radius (CircleFromCurrentPos.current_pose cur) cx cy
            arc_radius_opt)
         (sample_angle sa ea n i)) /\
  returns_points
    (CircleFromCurrentPos.calculate_circle_points_from_current_pos cur
       circle_radius n sa ea z_offset name) n
    (fun i p =>
       (pose_x p, pose_y p) =
       convention_B (pose_x (get_pose (CircleFromCurrentPos.magician cur)))
         (pose_y (get_pose (CircleFromCurrentPos.magician cur)))
         circle_radius (sample_angle sa ea n i)) /\
  returns_points
    (calculate_3d_circle_points ctl center radius3 normal n sa ea up) n
    (fun i p =>
       let (local_x, local_y) :=
         convention_B 0 0 radius3 (sample_angle sa ea n i) in
       vec (pose_x p) (pose_y p) (pose_z p) =
       vadd (matvec (create_rotation_matrix normal up)
               (vec local_x local_y 0)) center).
Proof.
  intros Hn1. repeat split.
  - rewrite arc_points_closed_form by exact Hn1.
    apply returns_points_map. reflexivity.
  - rewrite arc_points_copy_closed_form by exact Hn1.
    apply returns_points_map. reflexivity.
  - rewrite circle_points_closed_form by exact Hn1.
    apply returns_points_map. reflexivity.
  - rewrite circle_3d_closed_form.
    apply returns_points_map. intros i _.
    unfold convention_B, oriented_point, matvec, vadd.
    cbn [pose_x pose_y pose_z at0 at1 at2]. f_equal; ring.
Qed.

Lemma axis_conventions_witness :
  36%Z <> 1%Z /\
  returns_points
    (CircleFromCurrentPos.calculate_circle_points_from_current_pos
       (CircleFromCurrentPos.init (mkMagician (mkPose 200 0 30 0)))
       20 36 0 360 0 "none") 36
    (fun i p =>
       (pose_x p, pose_y p) =
       convention_B 200 0 20 (sample_angle 0 360 36 i)).
Proof.
  split; [lia|].
  refine (proj1 (proj2 (proj2 (axis_conventions
    (ExecuteArcTrajectory.init (mkMagician (mkPose 0 (-200) (-30) 0)))
    (CircleFromCurrentPos.init (mkMagician (mkPose 200 0 30 0)))
    (mkController (mkMagician (mkPose 200 0 50 0)))
    0 0 0 (Some 200) (Some (-35)) (Some (-35)) 20 0
    (vec 200 0 50) (vec 0 0 1) 30 None "none" 36 0 360 _)))).
  lia.
Defined.

(** C3, evaluated on the code at [num_points = 1].  Both copies of the
    explicit-centre arc and the circle about the live pose divide by
    [num_points - 1 = 0] when they compute the angle step and raise
    [ZeroDivisionError]; only the oriented generator returns the single
    point at [start_angle]. *)
Theorem single_point_division
    (arc : ExecuteArcTrajectory.RobotArcController)
    (cur : CircleFromCurrentPos.RobotArcController)
    (ctl : Robot3DCircleController)
    (cx cy cz : R) (arc_radius_opt : option R) (sz ez : option R)
    (circle_radius z_offset : R) (center normal : Vec3) (radius3 : R)
    (up : option Vec3) (name : string) (sa ea : R) :
  ExecuteArcTrajectory.calculate_arc_points arc cx cy cz arc_radius_opt 1
    sa ea sz ez name = Raise ZeroDivisionError /\
  CircleFromCurrentPos.calculate_arc_points cur cx cy cz arc_radius_opt 1
    sa ea sz ez name = Raise ZeroDivisionError /\
  CircleFromCurrentPos.calculate_circle_points_from_current_pos cur
    circle_radius 1 sa ea z_offset name = Raise ZeroDivisionError /\
  calculate_3d_circle_points ctl center radius3 normal 1 sa ea up =
    Ok [oriented_point (create_rotation_matrix normal up) center radius3
          (pose_r (get_pose (magician ctl))) sa].
Proof. repeat split. Qed.

(** C4.  For a non-zero normal and a hint that is not parallel to it, the
    columns [u], [v], [n] of the matrix built by [create_rotation_matrix]
    are unit vectors, pairwise orthogonal, with [n] the normalised normal
    and [v = n x u]. *)
Theorem plane_basis_orthonormal (normal hint : Vec3) :
  normal <> vzero -> ~ parallel hint normal ->
  let basis := create_rotation_matrix normal (Some hint) in
  let u := col0 basis in
  let v := col1 basis in
  let n := col2 basis in
  norm u = 1 /\ norm v = 1 /\ norm n = 1 /\
  dot u v = 0 /\ dot v n = 0 /\ dot u n = 0 /\
  n = normalize_vector normal /\ v = cross n u.
Proof.
  intros Hnormal Hhint.
  destruct (basis_orthonormal normal hint Hnormal Hhint)
    as (Hn & Hu & Hun & Hv & Hv1).
  rewrite create_rotation_matrix_hint. cbv zeta. cbn [col0 col1 col2].
  repeat split; try assumption.
  - rewrite Hv. apply dot_cross_r.
  - rewrite Hv, dot_comm. apply dot_cross_l.
Qed.

Lemma plane_basis_orthonormal_witness :
  vec 1 1 1 <> vzero /\ ~ parallel (vec 0 0 1) (vec 1 1 1) /\
  norm (col0 (create_rotation_matrix (vec 1 1 1) (Some (vec 0 0 1)))) = 1.
Proof.
  assert (Hnormal : vec 1 1 1 <> vzero).
  { unfold vzero. intros H. injection H as H0 _ _. lra. }
  assert (Hhint : ~ parallel (vec 0 0 1) (vec 1 1 1)).
  { intros [k Hk]. unfold vscale in Hk. cbn in Hk.
    injection Hk as H0 _ H2. lra. }
  split; [exact Hnormal|]. split; [exact Hhint|].
  exact (proj1 (plane_basis_orthonormal (vec 1 1 1) (vec 0 0 1)
                  Hnormal Hhint)).
Defined.

(** C5.  With the normal (0,0,1) and the hint (1,0,0) the oriented
    generator is the axis-aligned convention-B computation: the point for
    the sampled angle [theta] is
    [(center.x + r cos theta, center.y + r sin theta, center.z)]. *)
Theorem oriented_reduces_to_planar (ctl : Robot3DCircleController)
    (center : Vec3) (radius : R) (n : Z) (sa ea : R) :
  calculate_3d_circle_points ctl center radius (vec 0 0 1) n sa ea
    (Some (vec 1 0 0)) =
  Ok (map (fun i =>
             planar_B_point center radius
               (pose_r (get_pose (magician ctl))) (sample_angle sa ea n i))
          (range n)).
Proof.
  rewrite circle_3d_closed_form, basis_xy_plane.
  apply f_equal, map_ext. intros i.
  unfold oriented_point, planar_B_point, convention_B, matvec, vadd.
  cbn [at0 at1 at2 col0 col1 col2]. f_equal; ring.
Qed.

(** ** The half circle between two points *)

(** The construction is a call of [execute_3d_circle]: the centre is the
    midpoint, the radius half the distance, the angles 0 and 180. *)
Lemma semicircle_construction (ctl : Robot3DCircleController)
    (target normal : Vec3) (n : Z) :
  let start :=
    vec (pose_x (get_pose (magician ctl))) (pose_y (get_pose (magician ctl)))
        (pose_z (get_pose (magician ctl))) in
  execute_circle_from_current_to_point ctl target n (Some normal) =
  execute_3d_circle ctl (vdiv (vadd start target) 2)
    (norm (vsub target start) / 2) normal n 0 180 None 1.
Proof. reflexivity. Qed.

Lemma radians_0 : radians 0 = 0.
Proof. unfold radians. ring. Qed.

Lemma radians_180 : radians 180 = PI.
Proof. unfold radians. field. Qed.

Lemma semicircle_origin_to_x10 (r : R) (n : Z) :
  execute_circle_from_current_to_point
    (mkController (mkMagician (mkPose 0 0 0 r))) (vec 10 0 0) n None =
  execute_3d_circle (mkController (mkMagician (mkPose 0 0 0 r)))
    (vec 5 0 0) 5 (vec 0 (-10) 0) n 0 180 None 1.
Proof.
  unfold execute_circle_from_current_to_point, get_current_pose.
  cbn [magician get_pose pose_x pose_y pose_z].
  assert (Hline : vsub (vec 10 0 0) (vec 0 0 0) = vec 10 0 0) by vec_eq.
  assert (Hnorm : norm (vec 10 0 0) = 10)
    by (apply norm_unique; vec_eq).
  rewrite Hline, Hnorm. cbn [at2]. rewrite Rabs_R0.
  destruct (Rlt_dec 0 (9 / 10 * 10)) as [_|Hge]; [|lra].
  replace (vdiv (vadd (vec 0 0 0) (vec 10 0 0)) 2) with (vec 5 0 0)
    by vec_eq.
  replace (cross (vec 10 0 0) (vec 0 0 1)) with (vec 0 (-10) 0) by vec_eq.
  replace (10 / 2) with 5 by lra.
  reflexivity.
Qed.

Lemma semicircle_origin_to_x10_calls (r : R) (n : Z) :
  execute_circle_from_current_to_point
    (mkController (mkMagician (mkPose 0 0 0 r))) (vec 10 0 0) n None =
  Ok (map (fun i =>
             mkPtp 1
               (mkPose (5 * cos (radians (sample_angle 0 180 n i)) + 5) 0
                  (5 * sin (radians (sample_angle 0 180 n i))) r))
          (range n)).
Proof.
  rewrite semicircle_origin_to_x10. unfold execute_3d_circle.
  rewrite circle_3d_closed_form, basis_xz_plane. cbn [bind].
  rewrite map_map. apply f_equal, map_ext. intros i.
  unfold oriented_point, matvec, vadd.
  cbn [at0 at1 at2 col0 col1 col2 magician get_pose pose_r].
  f_equal. f_equal; ring.
Qed.

(** C6, evaluated on the code for the live pose (0,0,0) and the target
    (10,0,0) with the default 36 points.  The centre is (5,0,0), the radius
    5 and the angles run from 0 to 180, but the first move (angle 0) goes to
    the target (10,0,0) and the last (angle 180) to the start (0,0,0): the
    half circle is traversed from the target back to the start. *)
Theorem semicircle_runs_target_to_start :
  let ctl := mkController (mkMagician (mkPose 0 0 0 0)) in
  execute_circle_from_current_to_point ctl (vec 10 0 0) 36 None =
    execute_3d_circle ctl (vec 5 0 0) 5 (vec 0 (-10) 0) 36 0 180 None 1 /\
  exists calls,
    execute_circle_from_current_to_point ctl (vec 10 0 0) 36 None =
      Ok calls /\
    List.length calls = 36%nat /\
    nth_error calls 0 = Some (mkPtp 1 (mkPose 10 0 0 0)) /\
    nth_error calls 35 = Some (mkPtp 1 (mkPose 0 0 0 0)).
Proof.
  cbv zeta. split; [apply semicircle_origin_to_x10|].
  rewrite semicircle_origin_to_x10_calls.
  eexists. split; [reflexivity|]. split; [|split].
  - rewrite length_map, range_length. reflexivity.
  - change 0%nat with (Z.to_nat 0).
    rewrite map_range_nth_error by lia.
    rewrite sample_angle_first, radians_0, cos_0, sin_0.
    do 2 f_equal. f_equal; ring.
  - change 35%nat with (Z.to_nat (36 - 1)).
    rewrite map_range_nth_error by lia.
    rewrite sample_angle_last by lia.
    rewrite radians_180, cos_PI, sin_PI.
    do 2 f_equal. f_equal; ring.
Qed.

(** For a vertical diameter the generated half circle passes through neither
    end: from (0,0,0) to (0,0,10) it runs from (5,0,5) to (-5,0,5). *)
Lemma semicircle_vertical_calls (r : R) (n : Z) :
  execute_circle_from_current_to_point
    (mkController (mkMagician (mkPose 0 0 0 r))) (vec 0 0 10) n None =
  Ok (map (fun i =>
             mkPtp 1
               (mkPose (5 * cos (radians (sample_angle 0 180 n i))) 0
                  (5 - 5 * sin (radians (sample_angle 0 180 n i))) r))
          (range n)).
Proof.
  unfold execute_circle_from_current_to_point, get_current_pose.
  cbn [magician get_pose pose_x pose_y pose_z].
  assert (Hline : vsub (vec 0 0 10) (vec 0 0 0) = vec 0 0 10) by vec_eq.
  assert (Hnorm : norm (vec 0 0 10) = 10)
    by (apply norm_unique; vec_eq).
  rewrite Hline, Hnorm. cbn [at2]. rewrite (Rabs_pos_eq 10) by lra.
  destruct (Rlt_dec 10 (9 / 10 * 10)) as [Hlt|_]; [lra|].
  replace (cross (vec 0 0 10) (vec 1 0 0)) with (vec 0 10 0) by vec_eq.
  assert (Hn : normalize_vector (vec 0 10 0) = vec 0 1 0).
  { apply (normalize_scaled _ _ 10); [lra| |]; vec_eq. }
  assert (Hbasis : create_rotation_matrix (vec 0 10 0) None =
                   column_stack (vec 1 0 0) (vec 0 0 (-1)) (vec 0 1 0)).
  { rewrite create_rotation_matrix_default, Hn. cbn [at0].
    rewrite Rabs_R0.
    destruct (Rlt_dec 0 (9 / 10)) as [_|Hge]; [|lra].
    apply basis_of_units; [exact Hn| | | |]; vec_eq. }
  unfold execute_3d_circle.
  rewrite circle_3d_closed_form, Hbasis. cbn [bind].
  rewrite map_map. apply f_equal, map_ext. intros i.
  unfold oriented_point, matvec, vadd, vdiv.
  cbn [at0 at1 at2 col0 col1 col2 magician get_pose pose_r].
  f_equal. f_equal; field.
Qed.

Lemma semicircle_vertical_first_move :
  exists calls,
    execute_circle_from_current_to_point
      (mkController (mkMagician (mkPose 0 0 0 0))) (vec 0 0 10) 36 None =
      Ok calls /\
    nth_error calls 0 = Some (mkPtp 1 (mkPose 5 0 5 0)).
Proof.
  rewrite semicircle_vertical_calls. eexists. split; [reflexivity|].
  change 0%nat with (Z.to_nat 0).
  rewrite map_range_nth_error by lia.
  rewrite sample_angle_first, radians_0, cos_0, sin_0.
  do 2 f_equal. f_equal; ring.
Qed.

(** ** Policy names *)

Lemma spiral_not_recognized : ~ recognized "spiral".
Proof. unfold recognized. intros [H|[H|H]]; discriminate H. Qed.

(** C7 as stated fails for the circle about the live pose: under a name
    that is not recognised its points stay at the centre height, whereas
    under ['linear'] they climb from [center_z - z_offset] to
    [center_z + z_offset]. *)
Lemma unrecognized_name_not_linear_for_circle :
  let cur := CircleFromCurrentPos.init (mkMagician (mkPose 200 0 30 0)) in
  ~ recognized "spiral" /\
  (exists p q,
     CircleFromCurrentPos.calculate_circle_points_from_current_pos cur 20 2
       0 360 10 "spiral" = Ok [p; q] /\
     pose_z p = 30 /\ pose_z q = 30) /\
  (exists p q,
     CircleFromCurrentPos.calculate_circle_points_from_current_pos cur 20 2
       0 360 10 "linear" = Ok [p; q] /\
     pose_z p = 20 /\ pose_z q = 40) /\
  CircleFromCurrentPos.calculate_circle_points_from_current_pos cur 20 2
    0 360 10 "spiral" <>
  CircleFromCurrentPos.calculate_circle_points_from_current_pos cur 20 2
    0 360 10 "linear".
Proof.
  cbv zeta.
  assert (Hs : exists p q,
     CircleFromCurrentPos.calculate_circle_points_from_current_pos
       (CircleFromCurrentPos.init (mkMagician (mkPose 200 0 30 0))) 20 2
       0 360 10 "spiral" = Ok [p; q] /\
     pose_z p = 30 /\ pose_z q = 30).
  { rewrite circle_points_closed_form by lia.
    do 2 eexists. split; [reflexivity|].
    split; reflexivity. }
  assert (Hl : exists p q,
     CircleFromCurrentPos.calculate_circle_points_from_current_pos
       (CircleFromCurrentPos.init (mkMagician (mkPose 200 0 30 0))) 20 2
       0 360 10 "linear" = Ok [p; q] /\
     pose_z p = 20 /\ pose_z q = 40).
  { rewrite circle_points_closed_form by lia.
    do 2 eexists. split; [reflexivity|].
    unfold circle_point, offset_z, sample_progress.
    cbn [pose_z String.eqb Ascii.eqb Bool.eqb convention_B get_pose
         CircleFromCurrentPos.magician CircleFromCurrentPos.init].
    change (Z.of_nat 0) with 0%Z. change (Z.of_nat 1) with 1%Z.
    change (2 - 1)%Z with 1%Z. split; field. }
  split; [exact spiral_not_recognized|].
  split; [exact Hs|]. split; [exact Hl|].
  destruct Hs as (p & q & Hs & Hp & _).
  destruct Hl as (p' & q' & Hl & Hp' & _).
  rewrite Hs, Hl. intros Heq. injection Heq as E _. subst p'. lra.
Qed.

Lemma start_end_z_linear (zS zE p : R) :
  start_end_z "linear" zS zE p = zS + (zE - zS) * p.
Proof. reflexivity. Qed.

Lemma offset_z_none (zC zOff p : R) : offset_z "none" zC zOff p = zC.
Proof. reflexivity. Qed.

Lemma arc_point_fallback (reference : Pose) (cx cy cz : R)
    (radius : option R) (n : Z) (sa ea : R) (sz ez : option R)
    (name : string) (i : Z) :
  ~ recognized name ->
  arc_point reference cx cy cz radius n sa ea sz ez name i =
  arc_point reference cx cy cz radius n sa ea sz ez "linear" i.
Proof.
  intros Hname. unfold arc_point.
  rewrite start_end_z_fallback by exact Hname.
  rewrite start_end_z_linear. reflexivity.
Qed.

Lemma circle_point_fallback (live : Pose) (radius : R) (n : Z)
    (sa ea z_offset : R) (name : string) (i : Z) :
  ~ recognized name ->
  circle_point live radius n sa ea z_offset name i =
  circle_point live radius n sa ea z_offset "none" i.
Proof.
  intros Hname. unfold circle_point.
  rewrite offset_z_fallback by exact Hname.
  rewrite offset_z_none. reflexivity.
Qed.

(** C7, amended.  A policy name other than ['linear'], ['sine'] and
    ['cosine'] is not an error.  Both copies of the explicit-centre arc
    treat it as ['linear'] in the start/end form,
    [z = start_z + (end_z - start_z) * progress]; the circle about the live
    pose treats it as ['none'] and keeps every point at the centre height. *)
Theorem unrecognized_name_fallback
    (arc : ExecuteArcTrajectory.RobotArcController)
    (cur : CircleFromCurrentPos.RobotArcController)
    (cx cy cz : R) (arc_radius_opt : option R) (sz ez : option R)
    (circle_radius z_offset : R) (name : string) (n : Z) (sa ea : R) :
  ~ recognized name ->
  ExecuteArcTrajectory.calculate_arc_points arc cx cy cz arc_radius_opt n
    sa ea sz ez name =
  ExecuteArcTrajectory.calculate_arc_points arc cx cy cz arc_radius_opt n
    sa ea sz ez "linear" /\
  CircleFromCurrentPos.calculate_arc_points cur cx cy cz arc_radius_opt n
    sa ea sz ez name =
  CircleFromCurrentPos.calculate_arc_points cur cx cy cz arc_radius_opt n
    sa ea sz ez "linear" /\
  CircleFromCurrentPos.calculate_circle_points_from_current_pos cur
    circle_radius n sa ea z_offset name =
  CircleFromCurrentPos.calculate_circle_points_from_current_pos cur
    circle_radius n sa ea z_offset "none" /\
  (n <> 1%Z ->
   returns_points
     (ExecuteArcTrajectory.calculate_arc_points arc cx cy cz arc_radius_opt
        n sa ea sz ez name) n
     (fun i p =>
        let start_z :=
          arc_z_bound (ExecuteArcTrajectory.current_pose arc) cz sz in
        let end_z :=
          arc_z_bound (ExecuteArcTrajectory.current_pose arc) cz ez in
        pose_z p = start_z + (end_z - start_z) * sample_progress n i) /\
   returns_points
     (CircleFromCurrentPos.calculate_arc_points cur cx cy cz arc_radius_opt
        n sa ea sz ez name) n
     (fun i p =>
        let start_z :=
          arc_z_bound (CircleFromCurrentPos.current_pose cur) cz sz in
        let end_z :=
          arc_z_bound (CircleFromCurrentPos.current_pose cur) cz ez in
        pose_z p = start_z + (end_z - start_z) * sample_progress n i) /\
   returns_points
     (CircleFromCurrentPos.calculate_circle_points_from_current_pos cur
        circle_radius n sa ea z_offset name) n
     (fun i p =>
        pose_z p = pose_z (get_pose (CircleFromCurrentPos.magician cur)))).
Proof.
  intros Hname. split; [|split; [|split]].
  - destruct (Z.eq_dec n 1) as [->|Hn1]; [reflexivity|].
    rewrite !arc_points_closed_form by exact Hn1.
    apply f_equal, map_ext. intros i. apply arc_point_fallback, Hname.
  - destruct (Z.eq_dec n 1) as [->|Hn1]; [reflexivity|].
    rewrite !arc_points_copy_closed_form by exact Hn1.
    apply f_equal, map_ext. intros i. apply arc_point_fallback, Hname.
  - destruct (Z.eq_dec n 1) as [->|Hn1]; [reflexivity|].
    rewrite !circle_points_closed_form by exact Hn1.
    apply f_equal, map_ext. intros i. apply circle_point_fallback, Hname.
  - intros Hn1. split; [|split].
    + rewrite arc_points_closed_form by exact Hn1.
      apply returns_points_map. intros i _. cbv zeta.
      unfold arc_point. cbn [pose_z convention_A].
      apply start_end_z_fallback, Hname.
    + rewrite arc_points_copy_closed_form by exact Hn1.
      apply returns_points_map. intros i _. cbv zeta.
      unfold arc_point. cbn [pose_z convention_A].
      apply start_end_z_fallback, Hname.
    + rewrite circle_points_closed_form by exact Hn1.
      apply returns_points_map. intros i _.
      unfold circle_point. cbn [pose_z convention_B].
      apply offset_z_fallback, Hname.
Qed.

Lemma unrecognized_name_fallback_witness :
  ~ recognized "spiral" /\
  CircleFromCurrentPos.calculate_circle_points_from_current_pos
    (CircleFromCurrentPos.init (mkMagician (mkPose 200 0 30 0)))
    20 36 0 360 10 "spiral" =
  CircleFromCurrentPos.calculate_circle_points_from_current_pos
    (CircleFromCurrentPos.init (mkMagician (mkPose 200 0 30 0)))
    20 36 0 360 10 "none".
Proof.
  split; [exact spiral_not_recognized|].
  exact (proj1 (proj2 (proj2 (unrecognized_name_fallback
    (ExecuteArcTrajectory.init (mkMagician (mkPose 0 (-200) (-30) 0)))
    (CircleFromCurrentPos.init (mkMagician (mkPose 200 0 30 0)))
    0 0 0 (Some 200) (Some (-35)) (Some (-35)) 20 10 "spiral" 36 0 360
    spiral_not_recognized)))).
Defined.

(** ** No points *)

(** C8 as stated fails: with [num_points = 0] the calls return the empty
    sequence, they are not rejected. *)
Lemma zero_points_not_rejected :
  ExecuteArcTrajectory.calculate_arc_points
    (ExecuteArcTrajectory.init (mkMagician (mkPose 0 (-200) (-30) 0)))
    0 0 0 (Some 200) 0 0 90 (Some (-35)) (Some (-35)) "linear" = Ok [] /\
  ~ rejected
      (ExecuteArcTrajectory.calculate_arc_points
         (ExecuteArcTrajectory.init (mkMagician (mkPose 0 (-200) (-30) 0)))
         0 0 0 (Some 200) 0 0 90 (Some (-35)) (Some (-35)) "linear") /\
  calculate_3d_circle_points (mkController (mkMagician (mkPose 200 0 50 0)))
    (vec 200 0 50) 30 (vec 0 0 1) 0 0 360 None = Ok [] /\
  ~ rejected
      (calculate_3d_circle_points
         (mkController (mkMagician (mkPose 200 0 50 0)))
         (vec 200 0 50) 30 (vec 0 0 1) 0 0 360 None).
Proof.
  split; [reflexivity|]. split; [intros [e He]; discriminate He|].
  split; [reflexivity|]. intros [e He]. discriminate He.
Qed.

(** C8, amended.  With [num_points = 0] every point-generating call
    returns the empty sequence and raises nothing. *)
Theorem zero_points_empty_sequence
    (arc : ExecuteArcTrajectory.RobotArcController)
    (cur : CircleFromCurrentPos.RobotArcController)
    (ctl : Robot3DCircleController)
    (cx cy cz : R) (arc_radius_opt : option R) (sz ez : option R)
    (circle_radius z_offset : R) (center normal : Vec3) (radius3 : R)
    (up : option Vec3) (name : string) (sa ea : R) :
  ExecuteArcTrajectory.calculate_arc_points arc cx cy cz arc_radius_opt 0
    sa ea sz ez name = Ok [] /\
  CircleFromCurrentPos.calculate_arc_points cur cx cy cz arc_radius_opt 0
    sa ea sz ez name = Ok [] /\
  CircleFromCurrentPos.calculate_circle_points_from_current_pos cur
    circle_radius 0 sa ea z_offset name = Ok [] /\
  calculate_3d_circle_points ctl center radius3 normal 0 sa ea up = Ok [].
Proof. repeat split. Qed.

(** ** A hint along the normal *)

Lemma normalize_z_axis : normalize_vector (vec 0 0 1) = vec 0 0 1.
Proof. apply (normalize_scaled _ _ 1); [lra| |]; vec_eq. Qed.

Module Binary64Evaluation.

Import PrimFloat Execute3DCircleBinary64.
Local Open Scope float_scope.


(** Where the projection is exactly zero the binary64 code does return the
    degenerate basis: normal (0,0,1) with the hint (0,0,2). *)
Lemma axis_hint_projection_zero_binary64 :
  let zero := vec 0 0 0 in
  let center := vec 200 0 50 in
  let basis := create_rotation_matrix (vec 0 0 1) (Some (vec 0 0 2)) in
  array_equal (col0 basis) zero = true /\
  array_equal (col1 basis) zero = true /\
  array_equal (global_point basis (vec 30 0 0) center) center = true.
Proof. vm_compute. repeat split. Qed.

End Binary64Evaluation.



(** ** The stored reference pose *)

(** C10.  With the radius and both Z bounds supplied, the explicit-centre
    arc does not depend on the [x] and [y] of the stored reference pose: the
    angle [current_angle] computed from them is never read, and the arc
    starts at [start_angle]. *)
Theorem arc_independent_of_reference_xy (m : Magician)
    (x1 y1 x2 y2 z r : R) (cx cy cz radius : R) (n : Z) (sa ea sz ez : R)
    (name : string) :
  ExecuteArcTrajectory.calculate_arc_points
    (ExecuteArcTrajectory.mkController m (mkPose x1 y1 z r))
    cx cy cz (Some radius) n sa ea (Some sz) (Some ez) name =
  ExecuteArcTrajectory.calculate_arc_points
    (ExecuteArcTrajectory.mkController m (mkPose x2 y2 z r))
    cx cy cz (Some radius) n sa ea (Some sz) (Some ez) name.
Proof. reflexivity. Qed.

(** ** Further properties of the generators *)

(** X1.  The result of the planar generators for every sample count: they
    raise [ZeroDivisionError] exactly when [num_points = 1]; for any other
    count, negative ones included, they return the points for the indices
    of [range(num_points)].  The oriented generator never raises. *)
Theorem generators_for_every_count
    (arc : ExecuteArcTrajectory.RobotArcController)
    (cur : CircleFromCurrentPos.RobotArcController)
    (ctl : Robot3DCircleController)
    (cx cy cz : R) (arc_radius_opt : option R) (sz ez : option R)
    (circle_radius z_offset : R) (center normal : Vec3) (radius3 : R)
    (up : option Vec3) (name : string) (n : Z) (sa ea : R) :
  ExecuteArcTrajectory.calculate_arc_points arc cx cy cz arc_radius_opt n
    sa ea sz ez name =
    (if (n =? 1)%Z then Raise ZeroDivisionError
     else Ok (map (arc_point (ExecuteArcTrajectory.current_pose arc) cx cy
                     cz arc_radius_opt n sa ea sz ez name) (range n))) /\
  CircleFromCurrentPos.calculate_arc_points cur cx cy cz arc_radius_opt n
    sa ea sz ez name =
    (if (n =? 1)%Z then Raise ZeroDivisionError
     else Ok (map (arc_point (CircleFromCurrentPos.current_pose cur) cx cy
                     cz arc_radius_opt n sa ea sz ez name) (range n))) /\
  CircleFromCurrentPos.calculate_circle_points_from_current_pos cur
    circle_radius n sa ea z_offset name =
    (if (n =? 1)%Z then Raise ZeroDivisionError
     else Ok (map (circle_point
                     (get_pose (CircleFromCurrentPos.magician cur))
                     circle_radius n sa ea z_offset name) (range n))) /\
  (exists pts,
     calculate_3d_circle_points ctl center radius3 normal n sa ea up =
       Ok pts /\
     List.length pts = Z.to_nat n).
Proof.
  split; [|split; [|split]].
  - destruct (Z.eqb_spec n 1) as [->|Hn1]; [reflexivity|].
    apply arc_points_closed_form, Hn1.
  - destruct (Z.eqb_spec n 1) as [->|Hn1]; [reflexivity|].
    apply arc_points_copy_closed_form, Hn1.
  - destruct (Z.eqb_spec n 1) as [->|Hn1]; [reflexivity|].
    apply circle_points_closed_form, Hn1.
  - rewrite circle_3d_closed_form. eexists. split; [reflexivity|].
    rewrite length_map. apply range_length.
Qed.

(** X2.  The driving loops issue one [ptp] call per generated point, in
    order: [execute_arc_trajectory] in mode 0, [execute_circle_from_current_pos]
    in mode 1, [execute_3d_circle] in the mode it is given.  With
    [num_points = 1] the two planar drivers raise before any move is
    issued. *)
Theorem drivers_move_once_per_point
    (arc : ExecuteArcTrajectory.RobotArcController)
    (cur : CircleFromCurrentPos.RobotArcController)
    (ctl : Robot3DCircleController)
    (cx cy cz : R) (arc_radius_opt : option R) (sz ez : option R)
    (circle_radius z_offset : R) (center normal : Vec3) (radius3 : R)
    (up : option Vec3) (mode : Z) (name : string) (n : Z) (sa ea : R) :
  ExecuteArcTrajectory.execute_arc_trajectory arc cx cy cz arc_radius_opt n
    sa ea sz ez name =
    (if (n =? 1)%Z then Raise ZeroDivisionError
     else Ok (map (fun i =>
                     mkPtp 0 (arc_point
                                (ExecuteArcTrajectory.current_pose arc)
                                cx cy cz arc_radius_opt n sa ea sz ez name
                                i)) (range n))) /\
  CircleFromCurrentPos.execute_arc_trajectory cur cx cy cz arc_radius_opt n
    sa ea sz ez name =
    (if (n =? 1)%Z then Raise ZeroDivisionError
     else Ok (map (fun i =>
                     mkPtp 0 (arc_point
                                (CircleFromCurrentPos.current_pose cur)
                                cx cy cz arc_radius_opt n sa ea sz ez name
                                i)) (range n))) /\
  CircleFromCurrentPos.execute_circle_from_current_pos cur circle_radius n
    sa ea z_offset name =
    (if (n =? 1)%Z then Raise ZeroDivisionError
     else Ok (map (fun i =>
                     mkPtp 1 (circle_point
                                (get_pose (CircleFromCurrentPos.magician cur))
                                circle_radius n sa ea z_offset name i))
                  (range n))) /\
  execute_3d_circle ctl center radius3 normal n sa ea up mode =
    Ok (map (fun i =>
               mkPtp mode
                 (oriented_point (create_rotation_matrix normal up) center
                    radius3 (pose_r (get_pose (magician ctl)))
                    (sample_angle sa ea n i))) (range n)).
Proof.
  split; [|split; [|split]].
  - unfold ExecuteArcTrajectory.execute_arc_trajectory.
    destruct (Z.eqb_spec n 1) as [->|Hn1]; [reflexivity|].
    rewrite arc_points_closed_form by exact Hn1. cbn [bind].
    rewrite map_map. reflexivity.
  - unfold CircleFromCurrentPos.execute_arc_trajectory.
    destruct (Z.eqb_spec n 1) as [->|Hn1]; [reflexivity|].
    rewrite arc_points_copy_closed_form by exact Hn1. cbn [bind].
    rewrite map_map. reflexivity.
  - unfold CircleFromCurrentPos.execute_circle_from_current_pos.
    destruct (Z.eqb_spec n 1) as [->|Hn1]; [reflexivity|].
    rewrite circle_points_closed_form by exact Hn1. cbn [bind].
    rewrite map_map. reflexivity.
  - unfold execute_3d_circle. rewrite circle_3d_closed_form. cbn [bind].
    rewrite map_map. reflexivity.
Qed.

(** ** Points on the circle *)

Lemma sin_cos_squares (x : R) : sin x * sin x + cos x * cos x = 1.
Proof. exact (sin2_cos2 x). Qed.

(** X3.  Every point of the planar generators lies on the circle: its
    distance from the centre in the XY plane is the radius (the derived one
    when none is given), whatever the angles and the Z policy. *)
Theorem planar_points_on_circle
    (arc : ExecuteArcTrajectory.RobotArcController)
    (cur : CircleFromCurrentPos.RobotArcController)
    (cx cy cz : R) (arc_radius_opt : option R) (sz ez : option R)
    (circle_radius z_offset : R) (name : string) (n : Z) (sa ea : R) :
  n <> 1%Z ->
  returns_points
    (ExecuteArcTrajectory.calculate_arc_points arc cx cy cz arc_radius_opt n
       sa ea sz ez name) n
    (fun _ p =>
       let r := arc_radius (ExecuteArcTrajectory.current_pose arc) cx cy
                  arc_radius_opt in
       (pose_x p - cx) * (pose_x p - cx) + (pose_y p - cy) * (pose_y p - cy)
       = r * r) /\
  returns_points
    (CircleFromCurrentPos.calculate_arc_points cur cx cy cz arc_radius_opt n
       sa ea sz ez name) n
    (fun _ p =>
       let r := arc_radius (CircleFromCurrentPos.current_pose cur) cx cy
                  arc_radius_opt in
       (pose_x p - cx) * (pose_x p - cx) + (pose_y p - cy) * (pose_y p - cy)
       = r * r) /\
  returns_points
    (CircleFromCurrentPos.calculate_circle_points_from_current_pos cur
       circle_radius n sa ea z_offset name) n
    (fun _ p =>
       let live := get_pose (CircleFromCurrentPos.magician cur) in
       (pose_x p - pose_x live) * (pose_x p - pose_x live) +
       (pose_y p - pose_y live) * (pose_y p - pose_y live)
       = circle_radius * circle_radius).
Proof.
  intros Hn1. split; [|split].
  - rewrite arc_points_closed_form by exact Hn1.
    apply returns_points_map. intros i _. cbv zeta.
    unfold arc_point, convention_A. cbn [pose_x pose_y].
    set (t := radians (sample_angle sa ea n i)).
    pose proof (sin_cos_squares t) as Ht. nra.
  - rewrite arc_points_copy_closed_form by exact Hn1.
    apply returns_points_map. intros i _. cbv zeta.
    unfold arc_point, convention_A. cbn [pose_x pose_y].
    set (t := radians (sample_angle sa ea n i)).
    pose proof (sin_cos_squares t) as Ht. nra.
  - rewrite circle_points_closed_form by exact Hn1.
    apply returns_points_map. intros i _. cbv zeta.
    unfold circle_point, convention_B. cbn [pose_x pose_y].
    set (t := radians (sample_angle sa ea n i)).
    pose proof (sin_cos_squares t) as Ht. nra.
Qed.

Lemma planar_points_on_circle_witness :
  50%Z <> 1%Z /\
  returns_points
    (CircleFromCurrentPos.calculate_circle_points_from_current_pos
       (CircleFromCurrentPos.init (mkMagician (mkPose 100 100 50 0)))
       20 50 0 360 0 "none") 50
    (fun _ p =>
       (pose_x p - 100) * (pose_x p - 100) +
       (pose_y p - 100) * (pose_y p - 100) = 20 * 20).
Proof.
  split; [lia|].
  refine (proj2 (proj2 (planar_points_on_circle
    (ExecuteArcTrajectory.init (mkMagician (mkPose 0 (-200) (-30) 0)))
    (CircleFromCurrentPos.init (mkMagician (mkPose 100 100 50 0)))
    0 0 0 (Some 200) (Some (-35)) (Some (-35)) 20 0 "none" 50 0 360 _))).
  lia.
Defined.

(** ** The hint chosen when none is given *)

Lemma hint_basis_orthonormal (normal hint : Vec3) :
  normal <> vzero -> ~ parallel hint normal ->
  orthonormal (create_rotation_matrix normal (Some hint)).
Proof.
  intros Hnormal Hhint.
  destruct (basis_orthonormal normal hint Hnormal Hhint)
    as (Hn & Hu & Hun & Hv & Hv1).
  rewrite create_rotation_matrix_hint. unfold orthonormal.
  cbv zeta. cbn [col0 col1 col2].
  repeat split; try assumption.
  - rewrite Hv. apply dot_cross_r.
  - rewrite Hv, dot_comm. apply dot_cross_l.
Qed.

Lemma normalize_component (v : Vec3) :
  v <> vzero ->
  at0 (normalize_vector v) * norm v = at0 v.
Proof.
  intros Hv. rewrite normalize_nonzero by exact Hv.
  pose proof (norm_positive v Hv). unfold vdiv. cbn [at0]. field. lra.
Qed.

Lemma default_hint_not_parallel (normal : Vec3) :
  normal <> vzero ->
  ~ parallel
      (if Rlt_dec (Rabs (at0 (normalize_vector normal))) (9 / 10)
       then vec 1 0 0 else vec 0 1 0) normal.
Proof.
  intros Hnormal.
  pose proof (norm_positive normal Hnormal) as Hpos.
  pose proof (norm_sqr normal) as Hsq.
  pose proof (normalize_component normal Hnormal) as Hc.
  set (a := at0 (normalize_vector normal)) in *.
  set (m := norm normal) in *.
  destruct normal as [x y z]. unfold dot in Hsq. cbn [at0 at1 at2] in *.
  destruct (Rlt_dec (Rabs a) (9 / 10)) as [Hlt|Hge];
    intros [k Hk]; unfold vscale in Hk; cbn [at0 at1 at2] in Hk;
    injection Hk as H0 H1 H2.
  - apply Rabs_def2 in Hlt. destruct Hlt as [Hlo Hhi].
    assert (Hk0 : k <> 0) by (intros ->; lra).
    assert (Hy : y = 0) by (destruct (Rmult_integral k y); [lra|tauto|lra]).
    assert (Hz : z = 0) by (destruct (Rmult_integral k z); [lra|tauto|lra]).
    subst y z.
    assert (Ha : (a * a) * (m * m) = m * m).
    { replace (a * a * (m * m)) with ((a * m) * (a * m)) by ring.
      rewrite Hc. nra. }
    assert (Hmm : 0 < m * m) by nra.
    assert (Haa : a * a = 1).
    { apply (Rmult_eq_reg_r (m * m)); [rewrite Ha; ring|lra]. }
    nra.
  - apply Hge.
    assert (Hk0 : k <> 0) by (intros ->; lra).
    assert (Hx : x = 0) by (destruct (Rmult_integral k x); [lra|tauto|lra]).
    assert (Ha : a = 0) by nra.
    rewrite Ha, Rabs_R0. lra.
Qed.

(** X4.  For every non-zero normal the basis built without a hint is
    orthonormal: the axis picked by the 0.9 test is never along the
    normal. *)
Theorem default_basis_orthonormal (normal : Vec3) :
  normal <> vzero ->
  orthonormal (create_rotation_matrix normal None) /\
  col2 (create_rotation_matrix normal None) = normalize_vector normal.
Proof.
  intros Hnormal. split; [|reflexivity].
  rewrite create_rotation_matrix_default.
  apply hint_basis_orthonormal;
    [exact Hnormal|apply default_hint_not_parallel, Hnormal].
Qed.

Lemma x_axis_nonzero : vec 1 0 0 <> vzero.
Proof. unfold vzero. intros H. injection H as H0. lra. Qed.

Lemma default_basis_orthonormal_witness :
  vec 1 0 0 <> vzero /\
  orthonormal (create_rotation_matrix (vec 1 0 0) None).
Proof.
  split; [exact x_axis_nonzero|].
  exact (proj1 (default_basis_orthonormal (vec 1 0 0) x_axis_nonzero)).
Defined.

Lemma usable_basis_orthonormal (normal : Vec3) (up : option Vec3) :
  normal <> vzero -> usable_hint normal up ->
  orthonormal (create_rotation_matrix normal up).
Proof.
  intros Hnormal Hup. destruct up as [hint|].
  - apply hint_basis_orthonormal; assumption.
  - rewrite create_rotation_matrix_default.
    apply hint_basis_orthonormal;
      [exact Hnormal|apply default_hint_not_parallel, Hnormal].
Qed.

Lemma normal_of_normalized (v : Vec3) :
  v = vscale (norm v) (normalize_vector v).
Proof.
  unfold normalize_vector.
  destruct (Req_dec_T (norm v) 0) as [H0|Hne].
  - rewrite H0, (norm_zero_inv v H0). unfold vscale, vzero. cbn.
    f_equal; ring.
  - destruct v as [x y z]. unfold vscale, vdiv. cbn [at0 at1 at2].
    f_equal; field; exact Hne.
Qed.

Lemma oriented_point_offset (basis : Mat3) (center : Vec3)
    (radius r theta : R) :
  offset_from center (oriented_point basis center radius r theta) =
  vadd (vscale (radius * cos (radians theta)) (col0 basis))
       (vscale (radius * sin (radians theta)) (col1 basis)).
Proof.
  unfold offset_from, oriented_point, matvec, vadd, vsub, vscale.
  cbn [pose_x pose_y pose_z at0 at1 at2]. f_equal; ring.
Qed.

Lemma dot_combination (a b : R) (u v w : Vec3) :
  dot (vadd (vscale a u) (vscale b v)) w = a * dot u w + b * dot v w.
Proof. unfold dot, vadd, vscale. cbn [at0 at1 at2]. ring. Qed.

Lemma dot_combination_self (a b : R) (u v : Vec3) :
  dot (vadd (vscale a u) (vscale b v)) (vadd (vscale a u) (vscale b v)) =
  a * a * dot u u + 2 * (a * b) * dot u v + b * b * dot v v.
Proof. unfold dot, vadd, vscale. cbn [at0 at1 at2]. ring. Qed.

Lemma dot_vscale_r (k : R) (a b : Vec3) :
  dot a (vscale k b) = k * dot a b.
Proof. unfold dot, vscale. cbn [at0 at1 at2]. ring. Qed.

Lemma dot_normal_normalized (a v : Vec3) :
  dot a v = norm v * dot a (normalize_vector v).
Proof.
  rewrite <- dot_vscale_r, <- normal_of_normalized. reflexivity.
Qed.

Lemma orthonormal_point (basis : Mat3) (center : Vec3)
    (radius r theta : R) :
  orthonormal basis ->
  let d := offset_from center (oriented_point basis center radius r theta) in
  dot d d = radius * radius /\ dot d (col2 basis) = 0.
Proof.
  intros (Hu & Hv & Hn & Huv & Hvn & Hun & _). cbv zeta.
  rewrite oriented_point_offset. split.
  - rewrite dot_combination_self, Huv.
    rewrite (dot_self_of_unit _ Hu), (dot_self_of_unit _ Hv).
    pose proof (sin_cos_squares (radians theta)). nra.
  - rewrite dot_combination, Hun, Hvn. ring.
Qed.

(** X5.  With a non-zero normal and a usable hint (none, or one that is not
    along the normal) every point of the oriented generator is at distance
    [radius] from the centre and lies in the plane through the centre that
    is perpendicular to the normal. *)
Theorem oriented_points_on_circle (ctl : Robot3DCircleController)
    (center : Vec3) (radius : R) (normal : Vec3) (n : Z) (sa ea : R)
    (up : option Vec3) :
  normal <> vzero -> usable_hint normal up ->
  returns_points
    (calculate_3d_circle_points ctl center radius normal n sa ea up) n
    (fun _ p =>
       dot (offset_from center p) (offset_from center p) = radius * radius /\
       dot (offset_from center p) normal = 0).
Proof.
  intros Hnormal Hup. rewrite circle_3d_closed_form.
  apply returns_points_map. intros i _.
  pose proof (usable_basis_orthonormal normal up Hnormal Hup) as Hb.
  destruct (orthonormal_point (create_rotation_matrix normal up) center
              radius (pose_r (get_pose (magician ctl)))
              (sample_angle sa ea n i) Hb) as [Hd Hp].
  split; [exact Hd|].
  rewrite dot_normal_normalized.
  replace (normalize_vector normal)
    with (col2 (create_rotation_matrix normal up))
    by (destruct up; reflexivity).
  rewrite Hp. ring.
Qed.

Lemma oriented_points_on_circle_witness :
  vec 1 1 1 <> vzero /\ usable_hint (vec 1 1 1) (Some (vec 0 0 1)) /\
  returns_points
    (calculate_3d_circle_points
       (mkController (mkMagician (mkPose 200 0 50 0)))
       (vec 200 0 50) 35 (vec 1 1 1) 25 0 360 (Some (vec 0 0 1))) 25
    (fun _ p =>
       dot (offset_from (vec 200 0 50) p) (offset_from (vec 200 0 50) p)
       = 35 * 35 /\
       dot (offset_from (vec 200 0 50) p) (vec 1 1 1) = 0).
Proof.
  assert (Hnormal : vec 1 1 1 <> vzero).
  { unfold vzero. intros H. injection H as H0 _ _. lra. }
  assert (Hhint : usable_hint (vec 1 1 1) (Some (vec 0 0 1))).
  { intros [k Hk]. unfold vscale in Hk. cbn in Hk.
    injection Hk as H0 _ H2. lra. }
  split; [exact Hnormal|]. split; [exact Hhint|].
  exact (oriented_points_on_circle
           (mkController (mkMagician (mkPose 200 0 50 0)))
           (vec 200 0 50) 35 (vec 1 1 1) 25 0 360 (Some (vec 0 0 1))
           Hnormal Hhint).
Defined.

(** ** Normalisation and the length and sense of the inputs *)

Lemma vscale_vzero (k : R) : vscale k vzero = vzero.
Proof. unfold vscale, vzero. cbn. f_equal; ring. Qed.

Lemma norm_vscale (k : R) (v : Vec3) :
  norm (vscale k v) = Rabs k * norm v.
Proof.
  apply norm_unique.
  - apply Rmult_le_pos; [apply Rabs_pos|apply norm_nonneg].
  - replace (Rabs k * norm v * (Rabs k * norm v))
      with ((Rabs k * Rabs k) * (norm v * norm v)) by ring.
    rewrite norm_sqr.
    replace (Rabs k * Rabs k) with (k * k)
      by (unfold Rabs; destruct (Rcase_abs k); ring).
    unfold dot, vscale. cbn [at0 at1 at2]. ring.
Qed.

Lemma normalize_vscale (k : R) (v : Vec3) :
  k <> 0 ->
  normalize_vector (vscale k v) = vscale (k / Rabs k) (normalize_vector v).
Proof.
  intros Hk. pose proof (Rabs_pos_lt k Hk) as Hak.
  destruct (Req_dec_T (norm v) 0) as [H0|Hne].
  - rewrite (norm_zero_inv v H0), vscale_vzero, normalize_vzero, vscale_vzero.
    reflexivity.
  - unfold normalize_vector. rewrite norm_vscale.
    destruct (Req_dec_T (Rabs k * norm v) 0) as [Hz|_].
    + exfalso. destruct (Rmult_integral _ _ Hz); [lra|contradiction].
    + destruct (Req_dec_T (norm v) 0) as [H0|_]; [contradiction|].
      destruct v as [x y z]. unfold vscale, vdiv. cbn [at0 at1 at2].
      f_equal; field; split; (exact Hne || lra).
Qed.



Lemma normalize_opposite (v : Vec3) :
  normalize_vector (vscale (-1) v) = vscale (-1) (normalize_vector v).
Proof.
  rewrite normalize_vscale by lra.
  replace (Rabs (-1)) with 1
    by (unfold Rabs; destruct (Rcase_abs (-1)); lra).
  f_equal. field.
Qed.

(** X6.  Normalising twice is normalising once: the result of
    [normalize_vector] is a fixed point of it, the zero vector included. *)
Theorem normalize_idempotent (v : Vec3) :
  normalize_vector (normalize_vector v) = normalize_vector v.
Proof.
  destruct (Req_dec_T (norm v) 0) as [H0|Hne].
  - rewrite (norm_zero_inv v H0), !normalize_vzero. reflexivity.
  - apply normalize_of_unit, normalize_unit.
    intros ->. apply Hne, norm_vzero.
Qed.






Lemma in_plane_part_opposite (hint n : Vec3) :
  in_plane_part hint (vscale (-1) n) = in_plane_part hint n.
Proof.
  unfold in_plane_part, vsub, vscale, dot. cbn [at0 at1 at2].
  f_equal; ring.
Qed.

Lemma cross_opposite_l (n u : Vec3) :
  cross (vscale (-1) n) u = vscale (-1) (cross n u).
Proof. unfold cross, vscale. cbn [at0 at1 at2]. f_equal; ring. Qed.

Lemma reversed_basis_hint (normal hint : Vec3) :
  create_rotation_matrix (vscale (-1) normal) (Some hint) =
  column_stack (col0 (create_rotation_matrix normal (Some hint)))
    (vscale (-1) (col1 (create_rotation_matrix normal (Some hint))))
    (vscale (-1) (col2 (create_rotation_matrix normal (Some hint)))).
Proof.
  rewrite !create_rotation_matrix_hint. cbv zeta. cbn [col0 col1 col2].
  rewrite normalize_opposite, in_plane_part_opposite, cross_opposite_l.
  rewrite normalize_opposite. reflexivity.
Qed.

Lemma reversed_basis (normal : Vec3) (up : option Vec3) :
  create_rotation_matrix (vscale (-1) normal) up =
  column_stack (col0 (create_rotation_matrix normal up))
    (vscale (-1) (col1 (create_rotation_matrix normal up)))
    (vscale (-1) (col2 (create_rotation_matrix normal up))).
Proof.
  destruct up as [hint|]; [apply reversed_basis_hint|].
  rewrite (create_rotation_matrix_default (vscale (-1) normal)).
  rewrite (create_rotation_matrix_default normal).
  rewrite normalize_opposite.
  replace (Rabs (at0 (vscale (-1) (normalize_vector normal))))
    with (Rabs (at0 (normalize_vector normal))).
  - apply reversed_basis_hint.
  - unfold vscale. cbn [at0]. rewrite <- Rabs_Ropp. f_equal. ring.
Qed.

Lemma sample_angle_opposite (sa ea : R) (n i : Z) :
  sample_angle (- sa) (- ea) n i = - sample_angle sa ea n i.
Proof. unfold sample_angle, Rdiv. ring. Qed.

Lemma radians_opposite (a : R) : radians (- a) = - radians a.
Proof. unfold radians. ring. Qed.

Lemma oriented_point_reversed (basis : Mat3) (center : Vec3)
    (radius r theta : R) :
  oriented_point
    (column_stack (col0 basis) (vscale (-1) (col1 basis))
       (vscale (-1) (col2 basis))) center radius r theta =
  oriented_point basis center radius r (- theta).
Proof.
  unfold oriented_point, matvec, vadd, vscale.
  rewrite radians_opposite, cos_neg, sin_neg.
  cbn [at0 at1 at2 col0 col1 col2]. f_equal; ring.
Qed.

(** X9.  Reversing the normal reverses the sense of rotation: the points
    generated about [-normal] for the angles from [start_angle] to
    [end_angle] are those generated about [normal] for the angles from
    [-start_angle] to [-end_angle]. *)
Theorem reversed_normal_reverses_sweep (ctl : Robot3DCircleController)
    (center : Vec3) (radius : R) (normal : Vec3) (n : Z) (sa ea : R)
    (up : option Vec3) :
  calculate_3d_circle_points ctl center radius (vscale (-1) normal) n
    sa ea up =
  calculate_3d_circle_points ctl center radius normal n (- sa) (- ea) up.
Proof.
  rewrite !circle_3d_closed_form, reversed_basis.
  apply f_equal, map_ext. intros i.
  rewrite oriented_point_reversed, sample_angle_opposite. reflexivity.
Qed.

(** ** The height of the points *)

Lemma first_last_map {A : Type} (f : Z -> A) (n : Z) (Q : A -> A -> Prop) :
  (1 <= n)%Z -> Q (f 0%Z) (f (n - 1)%Z) ->
  first_last (Ok (map f (range n))) n Q.
Proof.
  intros Hn HQ. exists (map f (range n)), (f 0%Z), (f (n - 1)%Z).
  split; [reflexivity|]. split; [|split; [|exact HQ]].
  - change 0%nat with (Z.to_nat 0). apply map_range_nth_error. lia.
  - apply map_range_nth_error. lia.
Qed.

Lemma sample_progress_range (n i : Z) :
  n <> 1%Z -> (0 <= i < n)%Z -> 0 <= sample_progress n i <= 1.
Proof.
  intros Hn1 Hi. unfold sample_progress.
  assert (Hd : 0 < IZR (n - 1)) by (apply IZR_lt; lia).
  assert (H0 : 0 <= IZR i) by (apply IZR_le; lia).
  assert (H1 : IZR i <= IZR (n - 1)) by (apply IZR_le; lia).
  assert (Hp : IZR i / IZR (n - 1) * IZR (n - 1) = IZR i) by (field; lra).
  set (p := IZR i / IZR (n - 1)) in *. split; nra.
Qed.

Lemma between_bounds (a b w : R) :
  0 <= w <= 1 -> Rmin a b <= a + (b - a) * w <= Rmax a b.
Proof.
  intros [H0 H1]. unfold Rmin, Rmax.
  destruct (Rle_dec a b) as [Hab|Hab]; split; nra.
Qed.

Lemma start_end_z_between (name : string) (zS zE p : R) :
  0 <= p <= 1 ->
  Rmin zS zE <= start_end_z name zS zE p <= Rmax zS zE.
Proof.
  intros [H0 H1]. unfold start_end_z.
  assert (Hpi : 0 < PI) by apply PI_RGT_0.
  destruct (name =? "sine")%string.
  - apply between_bounds. split.
    + apply sin_ge_0; nra.
    + apply SIN_bound.
  - destruct (name =? "cosine")%string.
    + replace (zS + (zE - zS) * (1 - cos (p * PI)) / 2)
        with (zS + (zE - zS) * ((1 - cos (p * PI)) / 2)) by field.
      apply between_bounds.
      destruct (COS_bound (p * PI)) as [Hlo Hhi]. split; lra.
    + apply between_bounds. split; assumption.
Qed.

(** X10.  Whatever the policy name, the explicit-centre arc keeps every
    point between its two Z bounds: neither the sine nor the cosine policy
    overshoots them. *)
Theorem arc_height_within_bounds
    (arc : ExecuteArcTrajectory.RobotArcController)
    (cur : CircleFromCurrentPos.RobotArcController)
    (cx cy cz : R) (arc_radius_opt : option R) (sz ez : option R)
    (name : string) (n : Z) (sa ea : R) :
  n <> 1%Z ->
  returns_points
    (ExecuteArcTrajectory.calculate_arc_points arc cx cy cz arc_radius_opt n
       sa ea sz ez name) n
    (fun _ p =>
       let zS := arc_z_bound (ExecuteArcTrajectory.current_pose arc) cz sz in
       let zE := arc_z_bound (ExecuteArcTrajectory.current_pose arc) cz ez in
       Rmin zS zE <= pose_z p <= Rmax zS zE) /\
  returns_points
    (CircleFromCurrentPos.calculate_arc_points cur cx cy cz arc_radius_opt n
       sa ea sz ez name) n
    (fun _ p =>
       let zS := arc_z_bound (CircleFromCurrentPos.current_pose cur) cz sz in
       let zE := arc_z_bound (CircleFromCurrentPos.current_pose cur) cz ez in
       Rmin zS zE <= pose_z p <= Rmax zS zE).
Proof.
  intros Hn1. split.
  - rewrite arc_points_closed_form by exact Hn1.
    apply returns_points_map. intros i Hi. cbv zeta.
    unfold arc_point. cbn [pose_z convention_A].
    apply start_end_z_between, sample_progress_range; assumption.
  - rewrite arc_points_copy_closed_form by exact Hn1.
    apply returns_points_map. intros i Hi. cbv zeta.
    unfold arc_point. cbn [pose_z convention_A].
    apply start_end_z_between, sample_progress_range; assumption.
Qed.

Lemma arc_height_within_bounds_witness :
  50%Z <> 1%Z /\
  returns_points
    (ExecuteArcTrajectory.calculate_arc_points
       (ExecuteArcTrajectory.init (mkMagician (mkPose 0 (-200) (-30) 0)))
       0 0 0 (Some 200) 50 0 180 (Some (-40)) (Some 20) "sine") 50
    (fun _ p => Rmin (0 + -40) (0 + 20) <= pose_z p <= Rmax (0 + -40) (0 + 20)).
Proof.
  split; [lia|].
  refine (proj1 (arc_height_within_bounds
    (ExecuteArcTrajectory.init (mkMagician (mkPose 0 (-200) (-30) 0)))
    (CircleFromCurrentPos.init (mkMagician (mkPose 200 0 30 0)))
    0 0 0 (Some 200) (Some (-40)) (Some 20) "sine" 50 0 180 _)).
  lia.
Defined.

Lemma offset_within (zC zOff w : R) :
  Rabs w <= 1 -> Rabs (zC + zOff * w - zC) <= Rabs zOff.
Proof.
  intros Hw. replace (zC + zOff * w - zC) with (zOff * w) by ring.
  rewrite Rabs_mult. pose proof (Rabs_pos zOff). nra.
Qed.

Lemma Rabs_le_1 (w : R) : -1 <= w <= 1 -> Rabs w <= 1.
Proof. intros [Hlo Hhi]. apply Rabs_le. split; lra. Qed.

Lemma offset_z_within (name : string) (zC zOff p : R) :
  0 <= p <= 1 -> Rabs (offset_z name zC zOff p - zC) <= Rabs zOff.
Proof.
  intros [H0 H1]. unfold offset_z.
  destruct (name =? "linear")%string.
  - apply offset_within, Rabs_le_1. split; lra.
  - destruct (name =? "sine")%string.
    + apply offset_within, Rabs_le_1, SIN_bound.
    + destruct (name =? "cosine")%string.
      * apply offset_within, Rabs_le_1, COS_bound.
      * replace (zC - zC) with 0 by ring. rewrite Rabs_R0. apply Rabs_pos.
Qed.

(** X11.  The circle about the live pose never leaves the band of
    [z_offset] around the height of the centre, whatever the policy. *)
Theorem circle_height_within_offset
    (cur : CircleFromCurrentPos.RobotArcController)
    (radius z_offset : R) (name : string) (n : Z) (sa ea : R) :
  n <> 1%Z ->
  returns_points
    (CircleFromCurrentPos.calculate_circle_points_from_current_pos cur
       radius n sa ea z_offset name) n
    (fun _ p =>
       Rabs (pose_z p - pose_z (get_pose (CircleFromCurrentPos.magician cur)))
       <= Rabs z_offset).
Proof.
  intros Hn1. rewrite circle_points_closed_form by exact Hn1.
  apply returns_points_map. intros i Hi.
  unfold circle_point. cbn [pose_z convention_B].
  apply offset_z_within, sample_progress_range; assumption.
Qed.

Lemma circle_height_within_offset_witness :
  20%Z <> 1%Z /\
  returns_points
    (CircleFromCurrentPos.calculate_circle_points_from_current_pos
       (CircleFromCurrentPos.init (mkMagician (mkPose 200 0 30 0)))
       70 20 0 180 20 "sine") 20
    (fun _ p => Rabs (pose_z p - 30) <= Rabs 20).
Proof.
  split; [lia|].
  refine (circle_height_within_offset
    (CircleFromCurrentPos.init (mkMagician (mkPose 200 0 30 0)))
    70 20 "sine" 20 0 180 _).
  lia.
Defined.

Lemma start_end_z_at_0 (name : string) (zS zE : R) :
  start_end_z name zS zE 0 = zS.
Proof.
  unfold start_end_z. rewrite Rmult_0_l, sin_0, cos_0.
  destruct (name =? "sine")%string; [ring|].
  destruct (name =? "cosine")%string; [field|ring].
Qed.

Lemma start_end_z_at_1 (name : string) (zS zE : R) :
  start_end_z name zS zE 1 =
  if (name =? "sine")%string then zS else zE.
Proof.
  unfold start_end_z. rewrite Rmult_1_l, sin_PI, cos_PI.
  destruct (name =? "sine")%string; [ring|].
  destruct (name =? "cosine")%string; [field|ring].
Qed.

(** X12.  The explicit-centre arc starts at its first Z bound under every
    policy.  It ends at the second bound under every policy but ['sine'],
    which brings the last point back to the first bound. *)
Theorem arc_height_at_ends
    (arc : ExecuteArcTrajectory.RobotArcController)
    (cx cy cz : R) (arc_radius_opt : option R) (sz ez : option R)
    (name : string) (n : Z) (sa ea : R) :
  (2 <= n)%Z ->
  first_last
    (ExecuteArcTrajectory.calculate_arc_points arc cx cy cz arc_radius_opt n
       sa ea sz ez name) n
    (fun p0 pl =>
       let zS := arc_z_bound (ExecuteArcTrajectory.current_pose arc) cz sz in
       let zE := arc_z_bound (ExecuteArcTrajectory.current_pose arc) cz ez in
       pose_z p0 = zS /\
       pose_z pl = if (name =? "sine")%string then zS else zE).
Proof.
  intros Hn. rewrite arc_points_closed_form by lia.
  apply first_last_map; [lia|]. cbv zeta.
  unfold arc_point. cbn [pose_z convention_A].
  rewrite sample_progress_first, sample_progress_last by lia.
  split; [apply start_end_z_at_0|apply start_end_z_at_1].
Qed.

Lemma arc_height_at_ends_witness :
  (2 <= 50)%Z /\
  first_last
    (ExecuteArcTrajectory.calculate_arc_points
       (ExecuteArcTrajectory.init (mkMagician (mkPose 0 (-200) (-30) 0)))
       0 0 0 (Some 200) 50 0 180 (Some (-40)) (Some 20) "sine") 50
    (fun p0 pl => pose_z p0 = 0 + -40 /\ pose_z pl = 0 + -40).
Proof.
  split; [lia|].
  refine (arc_height_at_ends
    (ExecuteArcTrajectory.init (mkMagician (mkPose 0 (-200) (-30) 0)))
    0 0 0 (Some 200) (Some (-40)) (Some 20) "sine" 50 0 180 _).
  lia.
Defined.

Lemma offset_z_at_0 (name : string) (zC zOff : R) :
  offset_z name zC zOff 0 =
  if (name =? "linear")%string then zC - zOff
  else if (name =? "sine")%string then zC
  else if (name =? "cosine")%string then zC + zOff
  else zC.
Proof.
  unfold offset_z.
  replace (0 * 2 * PI) with 0 by ring. rewrite sin_0, cos_0.
  destruct (name =? "linear")%string; [ring|].
  destruct (name =? "sine")%string; [ring|].
  destruct (name =? "cosine")%string; ring.
Qed.

Lemma offset_z_at_1 (name : string) (zC zOff : R) :
  offset_z name zC zOff 1 =
  if (name =? "linear")%string then zC + zOff
  else if (name =? "sine")%string then zC
  else if (name =? "cosine")%string then zC + zOff
  else zC.
Proof.
  unfold offset_z.
  replace (1 * 2 * PI) with (2 * PI) by ring. rewrite sin_2PI, cos_2PI.
  destruct (name =? "linear")%string; [ring|].
  destruct (name =? "sine")%string; [ring|].
  destruct (name =? "cosine")%string; ring.
Qed.

(** X13.  The circle about the live pose, at its two ends: ['linear'] climbs
    from [center_z - z_offset] to [center_z + z_offset]; ['sine'] starts and
    ends at [center_z]; ['cosine'] starts and ends at
    [center_z + z_offset]; any other name stays at [center_z]. *)
Theorem circle_height_at_ends
    (cur : CircleFromCurrentPos.RobotArcController)
    (radius z_offset : R) (name : string) (n : Z) (sa ea : R) :
  (2 <= n)%Z ->
  first_last
    (CircleFromCurrentPos.calculate_circle_points_from_current_pos cur
       radius n sa ea z_offset name) n
    (fun p0 pl =>
       let zC := pose_z (get_pose (CircleFromCurrentPos.magician cur)) in
       pose_z p0 =
         (if (name =? "linear")%string then zC - z_offset
          else if (name =? "sine")%string then zC
          else if (name =? "cosine")%string then zC + z_offset
          else zC) /\
       pose_z pl =
         (if (name =? "linear")%string then zC + z_offset
          else if (name =? "sine")%string then zC
          else if (name =? "cosine")%string then zC + z_offset
          else zC)).
Proof.
  intros Hn. rewrite circle_points_closed_form by lia.
  apply first_last_map; [lia|]. cbv zeta.
  unfold circle_point. cbn [pose_z convention_B].
  rewrite sample_progress_first, sample_progress_last by lia.
  split; [apply offset_z_at_0|apply offset_z_at_1].
Qed.

Lemma circle_height_at_ends_witness :
  (2 <= 20)%Z /\
  first_last
    (CircleFromCurrentPos.calculate_circle_points_from_current_pos
       (CircleFromCurrentPos.init (mkMagician (mkPose 200 0 30 0)))
       70 20 0 180 20 "linear") 20
    (fun p0 pl => pose_z p0 = 30 - 20 /\ pose_z pl = 30 + 20).
Proof.
  split; [lia|].
  refine (circle_height_at_ends
    (CircleFromCurrentPos.init (mkMagician (mkPose 200 0 30 0)))
    70 20 "linear" 20 0 180 _).
  lia.
Defined.

Lemma start_end_z_equal_bounds (name : string) (z p : R) :
  start_end_z name z z p = z.
Proof.
  unfold start_end_z.
  destruct (name =? "sine")%string; [ring|].
  destruct (name =? "cosine")%string; [field|ring].
Qed.

(** X14.  When the two Z bounds of the explicit-centre arc are the same, in
    particular when neither is given, every point is at that height under
    every policy: the centre height plus the bound, or plus the height of
    the stored pose when the bounds are absent. *)
Theorem arc_height_constant
    (arc : ExecuteArcTrajectory.RobotArcController)
    (cx cy cz : R) (arc_radius_opt : option R) (sz ez : option R)
    (name : string) (n : Z) (sa ea : R) :
  sz = ez -> n <> 1%Z ->
  returns_points
    (ExecuteArcTrajectory.calculate_arc_points arc cx cy cz arc_radius_opt n
       sa ea sz ez name) n
    (fun _ p =>
       pose_z p =
       match sz with
       | Some z => cz + z
       | None => cz + pose_z (ExecuteArcTrajectory.current_pose arc)
       end).
Proof.
  intros <- Hn1. rewrite arc_points_closed_form by exact Hn1.
  apply returns_points_map. intros i _.
  unfold arc_point. cbn [pose_z convention_A].
  rewrite start_end_z_equal_bounds. destruct sz; reflexivity.
Qed.

Lemma arc_height_constant_witness :
  Some (-35) = Some (-35) /\ 50%Z <> 1%Z /\
  returns_points
    (ExecuteArcTrajectory.calculate_arc_points
       (ExecuteArcTrajectory.init (mkMagician (mkPose 0 (-200) (-30) 0)))
       0 0 0 (Some 200) 50 0 90 (Some (-35)) (Some (-35)) "linear") 50
    (fun _ p => pose_z p = 0 + -35).
Proof.
  split; [reflexivity|]. split; [lia|].
  refine (arc_height_constant
    (ExecuteArcTrajectory.init (mkMagician (mkPose 0 (-200) (-30) 0)))
    0 0 0 (Some 200) (Some (-35)) (Some (-35)) "linear" 50 0 90
    eq_refl _).
  lia.
Defined.

(** ** A full turn, the derived radius, the orientation *)

Lemma radians_full_turn (a : R) : radians (a + 360) = radians a + 2 * PI.
Proof. unfold radians. field. Qed.

Lemma cos_full_turn (a : R) : cos (radians (a + 360)) = cos (radians a).
Proof.
  rewrite radians_full_turn, cos_plus, cos_2PI, sin_2PI. ring.
Qed.

Lemma sin_full_turn (a : R) : sin (radians (a + 360)) = sin (radians a).
Proof.
  rewrite radians_full_turn, sin_plus, cos_2PI, sin_2PI. ring.
Qed.

(** X15.  A sweep of 360 degrees closes: the last point has the [x] and [y]
    of the first for the planar generators, and is the first point for the
    oriented generator. *)
Theorem full_turn_closes
    (arc : ExecuteArcTrajectory.RobotArcController)
    (cur : CircleFromCurrentPos.RobotArcController)
    (ctl : Robot3DCircleController)
    (cx cy cz : R) (arc_radius_opt : option R) (sz ez : option R)
    (circle_radius z_offset : R) (center normal : Vec3) (radius3 : R)
    (up : option Vec3) (name : string) (n : Z) (sa : R) :
  (2 <= n)%Z ->
  first_last
    (ExecuteArcTrajectory.calculate_arc_points arc cx cy cz arc_radius_opt n
       sa (sa + 360) sz ez name) n
    (fun p0 pl => pose_x pl = pose_x p0 /\ pose_y pl = pose_y p0) /\
  first_last
    (CircleFromCurrentPos.calculate_circle_points_from_current_pos cur
       circle_radius n sa (sa + 360) z_offset name) n
    (fun p0 pl => pose_x pl = pose_x p0 /\ pose_y pl = pose_y p0) /\
  first_last
    (calculate_3d_circle_points ctl center radius3 normal n sa (sa + 360) up)
    n (fun p0 pl => pl = p0).
Proof.
  intros Hn. split; [|split].
  - rewrite arc_points_closed_form by lia.
    apply first_last_map; [lia|].
    unfold arc_point, convention_A. cbn [pose_x pose_y].
    rewrite sample_angle_first, sample_angle_last by lia.
    rewrite cos_full_turn, sin_full_turn. split; reflexivity.
  - rewrite circle_points_closed_form by lia.
    apply first_last_map; [lia|].
    unfold circle_point, convention_B. cbn [pose_x pose_y].
    rewrite sample_angle_first, sample_angle_last by lia.
    rewrite cos_full_turn, sin_full_turn. split; reflexivity.
  - rewrite circle_3d_closed_form.
    apply first_last_map; [lia|].
    unfold oriented_point.
    rewrite sample_angle_first, sample_angle_last by lia.
    rewrite cos_full_turn, sin_full_turn. reflexivity.
Qed.

Lemma full_turn_closes_witness :
  (2 <= 50)%Z /\
  first_last
    (CircleFromCurrentPos.calculate_circle_points_from_current_pos
       (CircleFromCurrentPos.init (mkMagician (mkPose 200 0 30 0)))
       20 50 0 (0 + 360) 0 "none") 50
    (fun p0 pl => pose_x pl = pose_x p0 /\ pose_y pl = pose_y p0).
Proof.
  split; [lia|].
  refine (proj1 (proj2 (full_turn_closes
    (ExecuteArcTrajectory.init (mkMagician (mkPose 0 (-200) (-30) 0)))
    (CircleFromCurrentPos.init (mkMagician (mkPose 200 0 30 0)))
    (mkController (mkMagician (mkPose 200 0 50 0)))
    0 0 0 (Some 200) (Some (-35)) (Some (-35)) 20 0
    (vec 200 0 50) (vec 0 0 1) 30 None "none" 50 0 _))).
  lia.
Defined.

(** X16.  With no radius given, a stored reference pose straight below the
    centre in [y] (as the default pose (0,-200) is for the centre (0,0)) and
    [start_angle = 0], the arc starts at the [x] and [y] of the reference
    pose. *)
Theorem derived_arc_starts_at_reference
    (arc : ExecuteArcTrajectory.RobotArcController)
    (cx cy cz : R) (sz ez : option R) (name : string) (n : Z) (ea : R) :
  pose_x (ExecuteArcTrajectory.current_pose arc) = cx ->
  pose_y (ExecuteArcTrajectory.current_pose arc) <= cy ->
  (2 <= n)%Z ->
  first_last
    (ExecuteArcTrajectory.calculate_arc_points arc cx cy cz None n
       0 ea sz ez name) n
    (fun p0 _ =>
       pose_x p0 = pose_x (ExecuteArcTrajectory.current_pose arc) /\
       pose_y p0 = pose_y (ExecuteArcTrajectory.current_pose arc)).
Proof.
  intros Hx Hy Hn. rewrite arc_points_closed_form by lia.
  apply first_last_map; [lia|].
  unfold arc_point, convention_A, arc_radius. cbn [pose_x pose_y].
  rewrite sample_angle_first, radians_0, sin_0, cos_0, Hx.
  set (y := pose_y (ExecuteArcTrajectory.current_pose arc)) in *.
  replace ((cx - cx) ^ 2 + (y - cy) ^ 2) with ((cy - y) * (cy - y)) by ring.
  rewrite sqrt_square by lra. split; ring.
Qed.

Lemma derived_arc_starts_at_reference_witness :
  pose_x (ExecuteArcTrajectory.current_pose
            (ExecuteArcTrajectory.init (mkMagician (mkPose 0 (-200) (-30) 0))))
    = 0 /\
  pose_y (ExecuteArcTrajectory.current_pose
            (ExecuteArcTrajectory.init (mkMagician (mkPose 0 (-200) (-30) 0))))
    <= 0 /\
  (2 <= 36)%Z /\
  first_last
    (ExecuteArcTrajectory.calculate_arc_points
       (ExecuteArcTrajectory.init (mkMagician (mkPose 0 (-200) (-30) 0)))
       0 0 0 None 36 0 360 None None "linear") 36
    (fun p0 _ => pose_x p0 = 0 /\ pose_y p0 = -200).
Proof.
  assert (Hx : pose_x (ExecuteArcTrajectory.current_pose
            (ExecuteArcTrajectory.init (mkMagician (mkPose 0 (-200) (-30) 0))))
          = 0) by reflexivity.
  assert (Hy : pose_y (ExecuteArcTrajectory.current_pose
            (ExecuteArcTrajectory.init (mkMagician (mkPose 0 (-200) (-30) 0))))
          <= 0) by (cbn; lra).
  split; [exact Hx|]. split; [exact Hy|]. split; [lia|].
  refine (derived_arc_starts_at_reference
    (ExecuteArcTrajectory.init (mkMagician (mkPose 0 (-200) (-30) 0)))
    0 0 0 None None "linear" 36 360 Hx Hy _).
  lia.
Defined.

(** X17.  Every generated pose carries the orientation [r] of the reference:
    the stored pose for the explicit-centre arc (not the live one), the live
    pose for the circle about the live pose and for the oriented
    generator. *)
Theorem orientation_copied
    (arc : ExecuteArcTrajectory.RobotArcController)
    (cur : CircleFromCurrentPos.RobotArcController)
    (ctl : Robot3DCircleController)
    (cx cy cz : R) (arc_radius_opt : option R) (sz ez : option R)
    (circle_radius z_offset : R) (center normal : Vec3) (radius3 : R)
    (up : option Vec3) (name : string) (n : Z) (sa ea : R) :
  n <> 1%Z ->
  returns_points
    (ExecuteArcTrajectory.calculate_arc_points arc cx cy cz arc_radius_opt n
       sa ea sz ez name) n
    (fun _ p => pose_r p = pose_r (ExecuteArcTrajectory.current_pose arc)) /\
  returns_points
    (CircleFromCurrentPos.calculate_arc_points cur cx cy cz arc_radius_opt n
       sa ea sz ez name) n
    (fun _ p => pose_r p = pose_r (CircleFromCurrentPos.current_pose cur)) /\
  returns_points
    (CircleFromCurrentPos.calculate_circle_points_from_current_pos cur
       circle_radius n sa ea z_offset name) n
    (fun _ p =>
       pose_r p = pose_r (get_pose (CircleFromCurrentPos.magician cur))) /\
  returns_points
    (calculate_3d_circle_points ctl center radius3 normal n sa ea up) n
    (fun _ p => pose_r p = pose_r (get_pose (magician ctl))).
Proof.
  intros Hn1. split; [|split; [|split]].
  - rewrite arc_points_closed_form by exact Hn1.
    apply returns_points_map. reflexivity.
  - rewrite arc_points_copy_closed_form by exact Hn1.
    apply returns_points_map. reflexivity.
  - rewrite circle_points_closed_form by exact Hn1.
    apply returns_points_map. reflexivity.
  - rewrite circle_3d_closed_form.
    apply returns_points_map. reflexivity.
Qed.

Lemma orientation_copied_witness :
  50%Z <> 1%Z /\
  returns_points
    (ExecuteArcTrajectory.calculate_arc_points
       (ExecuteArcTrajectory.init (mkMagician (mkPose 10 20 30 45)))
       0 0 0 (Some 200) 50 0 90 (Some (-35)) (Some (-35)) "linear") 50
    (fun _ p => pose_r p = 0).
Proof.
  split; [lia|].
  refine (proj1 (orientation_copied
    (ExecuteArcTrajectory.init (mkMagician (mkPose 10 20 30 45)))
    (CircleFromCurrentPos.init (mkMagician (mkPose 200 0 30 0)))
    (mkController (mkMagician (mkPose 200 0 50 0)))
    0 0 0 (Some 200) (Some (-35)) (Some (-35)) 20 0
    (vec 200 0 50) (vec 0 0 1) 30 None "linear" 50 0 90 _)).
  lia.
Defined.

(** ** Degenerate circles and the half circle between two points *)

Lemma oriented_point_zero_radius (basis : Mat3) (center : Vec3)
    (r theta : R) :
  oriented_point basis center 0 r theta =
  mkPose (at0 center) (at1 center) (at2 center) r.
Proof.
  unfold oriented_point, matvec, vadd.
  cbn [at0 at1 at2]. f_equal; ring.
Qed.

(** X18.  A radius of zero is not an error: every generator returns its
    points, all of them at the centre in [x] and [y] (and in [z] for the
    oriented generator). *)
Theorem zero_radius_collapses
    (arc : ExecuteArcTrajectory.RobotArcController)
    (cur : CircleFromCurrentPos.RobotArcController)
    (ctl : Robot3DCircleController)
    (cx cy cz : R) (sz ez : option R) (z_offset : R) (center normal : Vec3)
    (up : option Vec3) (name : string) (n : Z) (sa ea : R) :
  n <> 1%Z ->
  returns_points
    (ExecuteArcTrajectory.calculate_arc_points arc cx cy cz (Some 0) n
       sa ea sz ez name) n
    (fun _ p => pose_x p = cx /\ pose_y p = cy) /\
  returns_points
    (CircleFromCurrentPos.calculate_circle_points_from_current_pos cur
       0 n sa ea z_offset name) n
    (fun _ p =>
       pose_x p = pose_x (get_pose (CircleFromCurrentPos.magician cur)) /\
       pose_y p = pose_y (get_pose (CircleFromCurrentPos.magician cur))) /\
  calculate_3d_circle_points ctl center 0 normal n sa ea up =
    Ok (repeat
          (mkPose (at0 center) (at1 center) (at2 center)
             (pose_r (get_pose (magician ctl))))
          (Z.to_nat n)).
Proof.
  intros Hn1. split; [|split].
  - rewrite arc_points_closed_form by exact Hn1.
    apply returns_points_map. intros i _.
    unfold arc_point, convention_A, arc_radius. cbn [pose_x pose_y].
    split; ring.
  - rewrite circle_points_closed_form by exact Hn1.
    apply returns_points_map. intros i _.
    unfold circle_point, convention_B. cbn [pose_x pose_y].
    split; ring.
  - rewrite circle_3d_closed_form. f_equal.
    rewrite <- range_length. apply map_constant.
    intros i. apply oriented_point_zero_radius.
Qed.

Lemma zero_radius_collapses_witness :
  36%Z <> 1%Z /\
  calculate_3d_circle_points (mkController (mkMagician (mkPose 200 0 50 0)))
    (vec 200 0 50) 0 (vec 0 0 1) 36 0 360 None =
  Ok (repeat (mkPose 200 0 50 0) 36).
Proof.
  split; [lia|].
  refine (proj2 (proj2 (zero_radius_collapses
    (ExecuteArcTrajectory.init (mkMagician (mkPose 0 (-200) (-30) 0)))
    (CircleFromCurrentPos.init (mkMagician (mkPose 200 0 30 0)))
    (mkController (mkMagician (mkPose 200 0 50 0)))
    0 0 0 (Some (-35)) (Some (-35)) 0 (vec 200 0 50) (vec 0 0 1) None
    "linear" 36 0 360 _))).
  lia.
Defined.

Lemma vsub_self (a : Vec3) : vsub a a = vzero.
Proof. unfold vsub, vzero. f_equal; ring. Qed.

Lemma midpoint_self (a : Vec3) : vdiv (vadd a a) 2 = a.
Proof. destruct a as [x y z]. unfold vdiv, vadd. cbn. f_equal; field. Qed.

(** X19.  Asked for the half circle to the pose it is already at,
    [execute_circle_from_current_to_point] raises nothing and sends the arm
    [num_points] times to that pose. *)
Theorem semicircle_to_current_pose (ctl : Robot3DCircleController) (n : Z)
    (plane_normal : option Vec3) :
  let live := get_pose (magician ctl) in
  execute_circle_from_current_to_point ctl
    (vec (pose_x live) (pose_y live) (pose_z live)) n plane_normal =
  Ok (repeat
        (mkPtp 1
           (mkPose (pose_x live) (pose_y live) (pose_z live) (pose_r live)))
        (Z.to_nat n)).
Proof.
  cbv zeta. unfold execute_circle_from_current_to_point, get_current_pose.
  cbn [pose_x pose_y pose_z].
  rewrite vsub_self, midpoint_self, norm_vzero.
  replace (0 / 2) with 0 by field.
  unfold execute_3d_circle.
  rewrite circle_3d_closed_form. cbn [bind]. f_equal.
  rewrite map_map, <- range_length. apply map_constant.
  intros i. rewrite oriented_point_zero_radius. reflexivity.
Qed.

Lemma vsub_vzero_inv (a b : Vec3) : vsub a b = vzero -> a = b.
Proof.
  destruct a as [x y z], b as [x' y' z']. unfold vsub, vzero.
  cbn [at0 at1 at2]. intros H. injection H as H0 H1 H2.
  f_equal; lra.
Qed.

Lemma auto_normal_nonzero (line : Vec3) :
  line <> vzero ->
  (if Rlt_dec (Rabs (at2 line)) (9 / 10 * norm line)
   then cross line (vec 0 0 1) else cross line (vec 1 0 0)) <> vzero.
Proof.
  intros Hline.
  pose proof (norm_positive line Hline) as Hpos.
  pose proof (norm_sqr line) as Hsq.
  set (m := norm line) in *.
  destruct line as [x y z]. unfold dot in Hsq. cbn [at0 at1 at2] in *.
  pose proof (Rabs_pos z) as Ha0.
  assert (Haa : Rabs z * Rabs z = z * z)
    by (unfold Rabs; destruct (Rcase_abs z); ring).
  destruct (Rlt_dec (Rabs z) (9 / 10 * m)) as [Hlt|Hge];
    unfold cross, vzero; cbn [at0 at1 at2]; intros H;
    injection H as H0 H1.
  - assert (Hy : y = 0) by lra. assert (Hx : x = 0) by lra. subst x y.
    assert (Hm : m * m = Rabs z * Rabs z) by lra.
    assert (Hma : m = Rabs z) by nra.
    lra.
  - apply Hge. assert (Hz : z = 0) by lra.
    rewrite Hz, Rabs_R0. lra.
Qed.

(** X20.  When the target differs from the live pose and no plane normal is
    given, the normal the function derives is non-zero and perpendicular to
    the line from the live pose to the target, so the basis is orthonormal.
    One move per point is issued in mode 1, and every target lies on the
    circle that has the segment between the two points as a diameter: at
    half their distance from the midpoint, in a plane that contains the
    segment. *)
Theorem semicircle_on_diameter_circle (ctl : Robot3DCircleController)
    (target : Vec3) (n : Z) :
  let live := get_pose (magician ctl) in
  let start := vec (pose_x live) (pose_y live) (pose_z live) in
  let line := vsub target start in
  let center := vdiv (vadd start target) 2 in
  target <> start ->
  exists normal pts,
    normal <> vzero /\
    dot normal line = 0 /\
    orthonormal (create_rotation_matrix normal None) /\
    execute_circle_from_current_to_point ctl target n None =
      Ok (map (fun p => mkPtp 1 p) pts) /\
    returns_points (Ok pts) n
      (fun _ p =>
         dot (offset_from center p) (offset_from center p) =
           (norm line / 2) * (norm line / 2) /\
         dot (offset_from center p) normal = 0).
Proof.
  cbv zeta. intros Hne.
  set (start := vec (pose_x (get_pose (magician ctl)))
                    (pose_y (get_pose (magician ctl)))
                    (pose_z (get_pose (magician ctl)))).
  set (line := vsub target start).
  assert (Hline : line <> vzero)
    by (intros H; apply Hne, vsub_vzero_inv, H).
  set (normal := if Rlt_dec (Rabs (at2 line)) (9 / 10 * norm line)
                 then cross line (vec 0 0 1) else cross line (vec 1 0 0)).
  assert (Hnormal : normal <> vzero) by apply auto_normal_nonzero, Hline.
  assert (Hperp : dot normal line = 0).
  { unfold normal.
    destruct (Rlt_dec (Rabs (at2 line)) (9 / 10 * norm line));
      rewrite dot_comm; apply dot_cross_l. }
  exists normal.
  exists (map (fun i =>
                 oriented_point (create_rotation_matrix normal None)
                   (vdiv (vadd start target) 2) (norm line / 2)
                   (pose_r (get_pose (magician ctl)))
                   (sample_angle 0 180 n i)) (range n)).
  split; [exact Hnormal|]. split; [exact Hperp|].
  pose proof (usable_basis_orthonormal normal None Hnormal I) as Hb.
  split; [exact Hb|]. split.
  - unfold execute_circle_from_current_to_point, get_current_pose.
    cbn [pose_x pose_y pose_z]. fold start. fold line. fold normal.
    unfold execute_3d_circle. rewrite circle_3d_closed_form. reflexivity.
  - apply returns_points_map. intros i _.
    destruct (orthonormal_point (create_rotation_matrix normal None)
                (vdiv (vadd start target) 2) (norm line / 2)
                (pose_r (get_pose (magician ctl)))
                (sample_angle 0 180 n i) Hb) as [Hd Hp].
    split; [exact Hd|].
    rewrite dot_normal_normalized.
    change (normalize_vector normal)
      with (col2 (create_rotation_matrix normal None)).
    rewrite Hp. ring.
Qed.

Lemma semicircle_on_diameter_circle_witness :
  vec 10 0 0 <> vec 0 0 0 /\
  exists normal pts,
    normal <> vzero /\
    dot normal (vsub (vec 10 0 0) (vec 0 0 0)) = 0 /\
    orthonormal (create_rotation_matrix normal None) /\
    execute_circle_from_current_to_point
      (mkController (mkMagician (mkPose 0 0 0 0))) (vec 10 0 0) 36 None =
      Ok (map (fun p => mkPtp 1 p) pts) /\
    returns_points (Ok pts) 36
      (fun _ p =>
         dot (offset_from (vdiv (vadd (vec 0 0 0) (vec 10 0 0)) 2) p)
             (offset_from (vdiv (vadd (vec 0 0 0) (vec 10 0 0)) 2) p) =
           (norm (vsub (vec 10 0 0) (vec 0 0 0)) / 2) *
           (norm (vsub (vec 10 0 0) (vec 0 0 0)) / 2) /\
         dot (offset_from (vdiv (vadd (vec 0 0 0) (vec 10 0 0)) 2) p) normal
           = 0).
Proof.
  assert (Hne : vec 10 0 0 <> vec 0 0 0).
  { intros H. injection H as H0. lra. }
  split; [exact Hne|].
  exact (semicircle_on_diameter_circle
           (mkController (mkMagician (mkPose 0 0 0 0))) (vec 10 0 0) 36 Hne).
Defined.

(** ** How the generators relate *)

Lemma basis_xy_plane_default :
  create_rotation_matrix (vec 0 0 1) None =
  column_stack (vec 1 0 0) (vec 0 1 0) (vec 0 0 1).
Proof.
  rewrite create_rotation_matrix_default, normalize_z_axis. cbn [at0].
  rewrite Rabs_R0.
  destruct (Rlt_dec 0 (9 / 10)) as [_|Hge]; [|lra].
  apply basis_xy_plane.
Qed.

Lemma oriented_point_xy (center : Vec3) (radius r theta : R) :
  oriented_point (column_stack (vec 1 0 0) (vec 0 1 0) (vec 0 0 1)) center
    radius r theta =
  planar_B_point center radius r theta.
Proof.
  unfold oriented_point, planar_B_point, convention_B, matvec, vadd.
  cbn [at0 at1 at2 col0 col1 col2]. f_equal; ring.
Qed.

(** X21.  The circle about the live pose with the policy ['none'] is the
    oriented circle about that pose with the normal (0,0,1) and no hint:
    for every sample count but 1 the two generators return the same
    points. *)
Theorem planar_circle_is_oriented_circle (m : Magician) (stored : Pose)
    (radius z_offset : R) (n : Z) (sa ea : R) :
  n <> 1%Z ->
  CircleFromCurrentPos.calculate_circle_points_from_current_pos
    (CircleFromCurrentPos.mkController m stored) radius n sa ea z_offset
    "none" =
  calculate_3d_circle_points (mkController m)
    (vec (pose_x (get_pose m)) (pose_y (get_pose m)) (pose_z (get_pose m)))
    radius (vec 0 0 1) n sa ea None.
Proof.
  intros Hn1.
  rewrite circle_points_closed_form by exact Hn1.
  rewrite circle_3d_closed_form, basis_xy_plane_default.
  apply f_equal, map_ext. intros i.
  rewrite oriented_point_xy.
  unfold circle_point, planar_B_point.
  cbn [CircleFromCurrentPos.magician magician at0 at1 at2].
  rewrite offset_z_none. reflexivity.
Qed.

Lemma planar_circle_is_oriented_circle_witness :
  50%Z <> 1%Z /\
  CircleFromCurrentPos.calculate_circle_points_from_current_pos
    (CircleFromCurrentPos.init (mkMagician (mkPose 200 0 30 0)))
    20 50 0 360 0 "none" =
  calculate_3d_circle_points (mkController (mkMagician (mkPose 200 0 30 0)))
    (vec 200 0 30) 20 (vec 0 0 1) 50 0 360 None.
Proof.
  split; [lia|].
  refine (planar_circle_is_oriented_circle (mkMagician (mkPose 200 0 30 0))
            (mkPose 0 (-200) (-30) 0) 20 0 50 0 360 _).
  lia.
Defined.

Lemma radians_quarter_back (a : R) : radians (a - 90) = radians a - PI / 2.
Proof. unfold radians. field. Qed.

Lemma cos_quarter_back (a : R) : cos (radians (a - 90)) = sin (radians a).
Proof.
  rewrite radians_quarter_back.
  replace (radians a - PI / 2) with (- (PI / 2 - radians a)) by ring.
  rewrite cos_neg. apply cos_shift.
Qed.

Lemma sin_quarter_back (a : R) : sin (radians (a - 90)) = - cos (radians a).
Proof.
  rewrite radians_quarter_back.
  replace (radians a - PI / 2) with (- (PI / 2 - radians a)) by ring.
  rewrite sin_neg, sin_shift. reflexivity.
Qed.

Lemma sample_angle_shift (sa ea d : R) (n i : Z) :
  n <> 1%Z ->
  sample_angle (sa - d) (ea - d) n i = sample_angle sa ea n i - d.
Proof.
  intros Hn1. unfold sample_angle. field. apply IZR_pred_nonzero, Hn1.
Qed.

(** X22.  The two axis conventions differ by a quarter turn: about the same
    centre and with the same radius, the explicit-centre arc from
    [start_angle] to [end_angle] visits in [x] and [y] the points that the
    circle about the live pose visits from [start_angle - 90] to
    [end_angle - 90]. *)
Theorem conventions_differ_by_quarter_turn
    (arc : ExecuteArcTrajectory.RobotArcController)
    (cur : CircleFromCurrentPos.RobotArcController)
    (cz radius z_offset : R) (sz ez : option R) (name name' : string)
    (n : Z) (sa ea : R) :
  n <> 1%Z ->
  let live := get_pose (CircleFromCurrentPos.magician cur) in
  exists pts qts,
    ExecuteArcTrajectory.calculate_arc_points arc (pose_x live) (pose_y live)
      cz (Some radius) n sa ea sz ez name = Ok pts /\
    CircleFromCurrentPos.calculate_circle_points_from_current_pos cur radius
      n (sa - 90) (ea - 90) z_offset name' = Ok qts /\
    map (fun p => (pose_x p, pose_y p)) pts =
    map (fun q => (pose_x q, pose_y q)) qts.
Proof.
  intros Hn1. cbv zeta.
  rewrite arc_points_closed_form by exact Hn1.
  rewrite circle_points_closed_form by exact Hn1.
  do 2 eexists. split; [reflexivity|]. split; [reflexivity|].
  rewrite !map_map. apply map_ext. intros i.
  unfold arc_point, circle_point, convention_A, convention_B, arc_radius.
  cbn [pose_x pose_y].
  rewrite sample_angle_shift by exact Hn1.
  rewrite cos_quarter_back, sin_quarter_back. f_equal; ring.
Qed.

Lemma conventions_differ_by_quarter_turn_witness :
  36%Z <> 1%Z /\
  exists pts qts,
    ExecuteArcTrajectory.calculate_arc_points
      (ExecuteArcTrajectory.init (mkMagician (mkPose 200 0 30 0)))
      200 0 0 (Some 20) 36 90 450 None None "linear" = Ok pts /\
    CircleFromCurrentPos.calculate_circle_points_from_current_pos
      (CircleFromCurrentPos.init (mkMagician (mkPose 200 0 30 0)))
      20 36 (90 - 90) (450 - 90) 0 "none" = Ok qts /\
    map (fun p => (pose_x p, pose_y p)) pts =
    map (fun q => (pose_x q, pose_y q)) qts.
Proof.
  split; [lia|].
  refine (conventions_differ_by_quarter_turn
    (ExecuteArcTrajectory.init (mkMagician (mkPose 200 0 30 0)))
    (CircleFromCurrentPos.init (mkMagician (mkPose 200 0 30 0)))
    0 20 0 None None "linear" "none" 36 90 450 _).
  lia.
Defined.
